(** * flask.app: the application object, its setup guard and its constructor

    A shallow embedding of [src/flask/app.py] (the [setupmethod] decorator,
    [Flask.__init__], [Flask.make_config], [Flask.auto_find_instance_path])
    followed by models of the routing, context and dispatch components the
    application object hands its work to. *)

From Stdlib Require Import DecimalString DecimalN DecimalPos.
From stdpp Require Import gmap strings list fin_maps sorting.

Set Warnings "-register-all,-clear-no-such-hyp".
Set Default Proof Using "Type".
Open Scope string_scope.

(** ** Python values and exceptions *)

Module Py.

(** The values the constructor stores on the application object.  A class
    is known by its name; an instance by its class name and its attribute
    dictionary ([__dict__]). *)
Inductive val :=
| VNone
| VBool (b : bool)
| VStr (s : string)
| VList (l : list val)
| VDict (d : gmap string val)
| VClass (name : string)
| VMethod (name : string)
| VObj (cls : string) (attrs : gmap string val).

Inductive exn :=
| AssertionError (msg : string)
| ValueError (msg : string)
| AttributeError (attr : string)
| TypeError (msg : string)
| Raised (what : string).

(** A computation either raises or returns. *)
Definition result (A : Type) : Type := exn + A.

Definition raise {A} (e : exn) : result A := inl e.
Definition ret {A} (a : A) : result A := inr a.
Definition bind {A B} (c : result A) (k : A → result B) : result B :=
  match c with
  | inl e => inl e
  | inr a => k a
  end.

Definition raises {A} (c : result A) : Prop := ∃ e, c = inl e.
Definition returns {A} (c : result A) : Prop := ∃ a, c = inr a.

(** Truth value testing ([if x:], [x and y]). *)
Definition truthy (v : val) : bool :=
  match v with
  | VNone => false
  | VBool b => b
  | VStr s => negb (String.eqb s "")
  | VList l => match l with [] => false | _ => true end
  | VDict d => negb (bool_decide (d = ∅))
  | VClass _ | VMethod _ | VObj _ _ => true
  end.

Definition is_none (v : val) : bool :=
  match v with VNone => true | _ => false end.

Definition of_opt (o : option string) : val :=
  match o with
  | None => VNone
  | Some s => VStr s
  end.

End Py.

Export Py.

Notation "x ←' c ; k" := (Py.bind c (fun x => k))
  (at level 20, c at level 100, k at level 200, right associativity,
   format "'[v' x  ←'  c ;  '/' k ']'").
Notation "c ;;' k" := (Py.bind c (fun _ => k))
  (at level 100, k at level 200, right associativity).

(** ** The application object *)

Module App.

(** An instance is its attribute dictionary: the constructor assigns the
    attributes one after the other, and some are read before the line that
    assigns them has run. *)
Abbreviation obj := (gmap string val).

(** A method takes [self] and its arguments, and returns a value together
    with the (mutated) instance, or raises. *)
Definition method (A R : Type) : Type := obj → A → result (R * obj).

(** Class attributes of [Flask] (lines 134-155). *)
Definition Flask_class : gmap string val :=
  <["request_class" := VClass "Request"]>
  (<["response_class" := VClass "Response"]>
  (<["json_decoder" := VClass "JSONDecoder"]>
  (<["json_encoder" := VClass "JSONEncoder"]>
  (<["jinja_environment" := VClass "Environment"]>
  (<["session_interface" := VObj "SecureCookieSessionInterface" ∅]> ∅))))).

(** What the module imports or inherits and does not define itself. *)
Record Env := {
  (* _PackageBoundObject.__init__(self, import_name, template_folder=, root_path=) *)
  PackageBoundObject_init : obj → string → option string → option string → result obj;
  (* os.path *)
  isabs : string → bool;
  abspath : string → string;
  join : list string → string;
  (* flask.helpers *)
  find_package : string → result (option string * string);
  get_debug_flag : bool;
  (* Map(), Config(root_path, defaults), cli.FlaskGroup(app) *)
  Map_new : val;
  Config_new : val → val → val;
  FlaskGroup_new : obj → val;
  (* members of the class that lie outside the excerpt *)
  default_config : val;
  has_static_folder : obj → result val;
  add_url_rule : method (val * val * val * val) val
}.

Section WithEnv.

Variable E : Env.

(** [self.k]: the instance dictionary first, then the class. *)
Definition getattr (self : obj) (k : string) : result val :=
  match self !! k with
  | Some v => ret v
  | None =>
      match <["default_config" := default_config E]> Flask_class !! k with
      | Some v => ret v
      | None => raise (AttributeError k)
      end
  end.

(** [o.k] and [o.k = v] on a stored object. *)
Definition getattr_val (o : val) (k : string) : result val :=
  match o with
  | VObj _ attrs =>
      match attrs !! k with
      | Some v => ret v
      | None => raise (AttributeError k)
      end
  | _ => raise (AttributeError k)
  end.

Definition setattr_val (o : val) (k : string) (v : val) : result val :=
  match o with
  | VObj cls attrs => ret (VObj cls (<[k := v]> attrs))
  | _ => raise (AttributeError k)
  end.

(** [d[k] = v] *)
Definition setitem (d : val) (k : string) (v : val) : result val :=
  match d with
  | VDict m => ret (VDict (<[k := v]> m))
  | _ => raise (TypeError "object does not support item assignment")
  end.

(** [s + t] for a string literal [t] *)
Definition str_add (s : val) (t : string) : result val :=
  match s with
  | VStr a => ret (VStr (a ++ t))
  | _ => raise (TypeError "unsupported operand type(s) for +")
  end.

Definition as_str (v : val) : result string :=
  match v with
  | VStr a => ret a
  | _ => raise (TypeError "expected str")
  end.

(** *** [setupmethod] (lines 55-73) *)

Definition newline : string := String (Ascii.ascii_of_nat 10) "".

Definition setup_error_message : string :=
  "A setup function was called after the first request was handled."
  ++ " This usually indicates a bug in the application where a module"
  ++ " was not imported and decorators or other functionality was"
  ++ " called too late." ++ newline
  ++ "To fix this make sure to import all your view"
  ++ " modules, database functions and similar things in one place"
  ++ " either before the first request or before the first request"
  ++ " handling function.".

Definition setup_error : exn := AssertionError setup_error_message.

(** [self.debug and self._got_first_request]: the right operand is only
    evaluated when the left one is true. *)
Definition setup_guard (self : obj) : result val :=
  d ←' getattr self "debug";
  if truthy d then getattr self "_got_first_request" else ret d.

Definition wrapper_func {A R} (f : method A R) : method A R :=
  fun self args =>
    c ←' setup_guard self;
    if truthy c then raise setup_error else f self args.

Definition setupmethod {A R} (f : method A R) : method A R := wrapper_func f.

(** *** [Flask.make_config] (lines 242-255) *)

Definition make_config (self : obj) (instance_relative : bool) : result val :=
  root_path ←' getattr self "root_path";
  root_path ←' (if instance_relative then getattr self "instance_path"
                else ret root_path);
  defaults ←' getattr self "default_config";
  ret (Config_new E root_path defaults).

(** *** [Flask.auto_find_instance_path] (lines 257-270) *)

Definition auto_find_instance_path (self : obj) : result string :=
  import_name ←' (n ←' getattr self "import_name"; as_str n);
  pp ←' find_package E import_name;
  match pp.1 with
  | None => ret (abspath E (join E [pp.2; "instance"]))
  | Some prefix =>
      name ←' (n ←' getattr self "name"; as_str n);
      ret (abspath E (join E [prefix; "var"; name ++ "-instance"]))
  end.

(** *** [Flask.__init__] (lines 157-237) *)

Record init_args := {
  import_name : string;
  static_url_path : option string;
  static_folder : option string;
  static_host : option string;
  host_matching : bool;
  subdomain_matching : bool;
  template_folder : option string;
  instance_path : option string;
  instance_relative_config : bool;
  root_path : option string
}.

(** The defaults of the signature: [Flask(import_name)]. *)
Definition default_args (name : string) : init_args :=
  {| import_name := name;
     static_url_path := None;
     static_folder := Some "static";
     static_host := None;
     host_matching := false;
     subdomain_matching := false;
     template_folder := Some "templates";
     instance_path := None;
     instance_relative_config := false;
     root_path := None |}.

Definition instance_path_error (p : string) : exn :=
  ValueError ("If an instance path is provided it must be absolute."
              ++ " A relative path was given instead: " ++ p).

(** [self.url_map.k = v] *)
Definition set_url_map_attr (self : obj) (k : string) (v : val) : result obj :=
  m ←' getattr self "url_map";
  m' ←' setattr_val m k v;
  ret (<["url_map" := m']> self).

(** [self.url_map.converters[name] = cls]: the dictionary held by the map
    is updated in place. *)
Definition set_converter (self : obj) (name : string) (cls : val) : result obj :=
  m ←' getattr self "url_map";
  c ←' getattr_val m "converters";
  c' ←' setitem c name cls;
  m' ←' setattr_val m "converters" c';
  ret (<["url_map" := m']> self).

(** Lines 177-181. *)
Definition init_static_attrs (self : obj) (a : init_args) : obj :=
  let self := match static_url_path a with
              | Some p => <["static_url_path" := VStr p]> self
              | None => self
              end in
  match static_folder a with
  | Some p => <["static_folder" := VStr p]> self
  | None => self
  end.

(** Lines 183-191. *)
Definition init_instance_path (self : obj) (a : init_args) : result string :=
  match instance_path a with
  | None => auto_find_instance_path self
  | Some p =>
      if negb (isabs E p) then raise (instance_path_error p) else ret p
  end.

(** Lines 197-206. *)
Definition init_url_map (self : obj) (a : init_args) : result obj :=
  let self := <["url_map" := Map_new E]> self in
  self ←' set_url_map_attr self "host_matching" (VBool (host_matching a));
  self ←' set_url_map_attr self "subdomain_matching" (VBool (subdomain_matching a));
  self ←' set_converter self "default" (VClass "UnicodeConverter");
  self ←' set_converter self "string" (VClass "UnicodeConverter");
  self ←' set_converter self "any" (VClass "AnyConverter");
  self ←' set_converter self "path" (VClass "PathConverter");
  self ←' set_converter self "int" (VClass "IntegerConverter");
  self ←' set_converter self "float" (VClass "FloatConverter");
  set_converter self "uuid" (VClass "UUIDConverter").

(** Lines 208-222. *)
Definition init_registries (self : obj) : obj :=
  let self := <["blueprints" := VDict ∅]> self in
  let self := <["cli" := FlaskGroup_new E self]> self in
  let self := <["_before_request_funcs" := VDict ∅]> self in
  let self := <["_after_request_funcs" := VDict ∅]> self in
  let self := <["_teardown_request_funcs" := VDict ∅]> self in
  let self := <["_teardown_appcontext_funcs" := VList []]> self in
  let self := <["_template_context_processors" := VDict ∅]> self in
  let self := <["_shell_context_processors" := VList []]> self in
  let self := <["url_value_preprocessors" := VDict ∅]> self in
  let self := <["url_default_functions" := VDict ∅]> self in
  let self := <["extensions" := VDict ∅]> self in
  let self := <["_got_first_request" := VBool false]> self in
  <["_before_first_request_functions" := VList []]> self.

(** Lines 224-230. *)
Definition init_static_route (self : obj) (a : init_args) : result obj :=
  hsf ←' has_static_folder E self;
  if truthy hsf then
    sup ←' getattr self "static_url_path";
    rule ←' str_add sup "/<path:filename>";
    r ←' add_url_rule E self
           (rule, VStr "static", of_opt (static_host a), VMethod "send_static_file");
    ret r.2
  else ret self.

(** Lines 232-237. *)
Definition init_tail (self : obj) : result obj :=
  let self := <["_logger" := VNone]> self in
  n ←' getattr self "import_name";
  let self := <["name" := n]> self in
  let self := <["debug" := VBool (get_debug_flag E)]> self in
  ret (<["_cli_commands" := VDict ∅]> self).

Definition init (a : init_args) : result obj :=
  self ←' PackageBoundObject_init E ∅ (import_name a) (template_folder a) (root_path a);
  let self := init_static_attrs self a in
  ip ←' init_instance_path self a;
  let self := <["instance_path" := VStr ip]> self in
  config ←' make_config self (instance_relative_config a);
  let self := <["config" := config]> self in
  let self := <["_view_functions" := VDict ∅]> self in
  let self := <["_error_handlers" := VDict ∅]> self in
  self ←' init_url_map self a;
  self ←' init_static_route (init_registries self) a;
  init_tail self.

(** The converter table of a URL map, and of the application's URL map. *)
Definition map_converters (m : val) : option (gmap string val) :=
  match m with
  | VObj _ attrs =>
      match attrs !! "converters" with
      | Some (VDict d) => Some d
      | _ => None
      end
  | _ => None
  end.

Definition converters_of (self : obj) : option (gmap string val) :=
  match self !! "url_map" with
  | Some m => map_converters m
  | None => None
  end.

(** The seven assignments of lines 200-206, on the table [d]. *)
Definition install_converters (d : gmap string val) : gmap string val :=
  <["uuid" := VClass "UUIDConverter"]>
  (<["float" := VClass "FloatConverter"]>
  (<["int" := VClass "IntegerConverter"]>
  (<["path" := VClass "PathConverter"]>
  (<["any" := VClass "AnyConverter"]>
  (<["string" := VClass "UnicodeConverter"]>
  (<["default" := VClass "UnicodeConverter"]> d)))))).

End WithEnv.

(** *** A sample environment

    POSIX-style paths, the default converter table of the URL map, and a
    registration method that appends to the map's rule list; used to run
    the constructor on concrete arguments. *)

Definition posix_isabs (s : string) : bool :=
  match s with
  | String c _ => Ascii.eqb c (Ascii.ascii_of_nat 47)
  | EmptyString => false
  end.

Definition posix_join (parts : list string) : string :=
  foldl (fun acc b =>
           if posix_isabs b then b
           else if String.eqb acc "" then b
           else acc ++ "/" ++ b) "" parts.

Definition sample_abspath (p : string) : string :=
  if posix_isabs p then p else "/srv/" ++ p.

Definition sample_pbo_init (self : obj) (name : string)
    (template_folder root_path : option string) : result obj :=
  ret (<["import_name" := VStr name]>
       (<["template_folder" := of_opt template_folder]>
       (<["root_path" := VStr (default "/srv/app" root_path)]>
       (<["static_url_path" := VStr "/static"]> self)))).

Definition default_converters : gmap string val :=
  <["default" := VClass "UnicodeConverter"]>
  (<["string" := VClass "UnicodeConverter"]>
  (<["any" := VClass "AnyConverter"]>
  (<["path" := VClass "PathConverter"]>
  (<["int" := VClass "IntegerConverter"]>
  (<["float" := VClass "FloatConverter"]>
  (<["uuid" := VClass "UUIDConverter"]> ∅)))))).

Definition sample_Map : val :=
  VObj "Map" (<["converters" := VDict default_converters]>
              (<["_rules" := VList []]> ∅)).

Definition sample_has_static_folder (self : obj) : result val :=
  match self !! "static_folder" with
  | Some v => ret (VBool (negb (is_none v)))
  | None => ret (VBool false)
  end.

Definition sample_add_url_rule : method (val * val * val * val) val :=
  fun self '(rule, endpoint, host, view_func) =>
    match self !! "url_map" with
    | Some (VObj cls attrs) =>
        match attrs !! "_rules" with
        | Some (VList rules) =>
            let rules := (rules ++ [VList [rule; endpoint; host; view_func]])%list in
            ret (VNone, <["url_map" := VObj cls (<["_rules" := VList rules]> attrs)]> self)
        | _ => raise (AttributeError "_rules")
        end
    | _ => raise (AttributeError "url_map")
    end.

Definition sample_env (debug : bool) : Env :=
  {| PackageBoundObject_init := sample_pbo_init;
     isabs := posix_isabs;
     abspath := sample_abspath;
     join := posix_join;
     find_package := fun _ => ret (None, "/srv/app");
     get_debug_flag := debug;
     Map_new := sample_Map;
     Config_new := fun root defaults =>
       VObj "Config" (<["root_path" := root]> (<["defaults" := defaults]> ∅));
     FlaskGroup_new := fun _ => VObj "FlaskGroup" ∅;
     default_config := VDict ∅;
     has_static_folder := sample_has_static_folder;
     add_url_rule := sample_add_url_rule |}.

(** A registration in the style of [before_request]: append the hook to
    the list kept under a key of the instance. *)
Definition sample_register (key : string) : method val val :=
  fun self hook =>
    match self !! key with
    | Some (VList hooks) => ret (hook, <[key := VList (hooks ++ [hook])%list]> self)
    | _ => ret (hook, <[key := VList [hook]]> self)
    end.

(** [Flask("shop", instance_path=p)] *)
Definition instance_args (p : string) : init_args :=
  {| import_name := "shop";
     static_url_path := None;
     static_folder := Some "static";
     static_host := None;
     host_matching := false;
     subdomain_matching := false;
     template_folder := Some "templates";
     instance_path := Some p;
     instance_relative_config := false;
     root_path := None |}.

(** [Flask("shop")] in the sample environment. *)
Definition sample_app (debug : bool) : obj :=
  match init (sample_env debug) (default_args "shop") with
  | inr app => app
  | inl _ => ∅
  end.

(** What a collaborator may not touch: the attribute [k] of the instance. *)
Definition preserves {A R} (k : string) (m : method A R) : Prop :=
  ∀ self x r self', m self x = ret (r, self') → self' !! k = self !! k.

(** ... and the converter table of the URL map. *)
Definition preserves_converters {A R} (m : method A R) : Prop :=
  ∀ self x r self', m self x = ret (r, self') →
    converters_of self' = converters_of self.

Definition converter_names : gset string :=
  {[ "default"; "string"; "any"; "path"; "int"; "float"; "uuid" ]}.

End App.

(** ** The rest of the application object *)

Module AppMore.

Import App.

Section WithEnv.

Variable E : Env.

(** [create_logger(app)], imported from [flask.logging]. *)
Variable create_logger : obj → result val.

(** *** The [logger] property (lines 272-288) *)

Definition logger (self : obj) : result (val * obj) :=
  l ←' getattr E self "_logger";
  self ←' (if is_none l then
             lg ←' create_logger self;
             ret (<["_logger" := lg]> self)
           else ret self);
  l ←' getattr E self "_logger";
  ret (l, self).

End WithEnv.

(** The environment [E] with another [add_url_rule]. *)
Definition with_add_url_rule (E : Env)
    (f : method (val * val * val * val) val) : Env :=
  {| PackageBoundObject_init := PackageBoundObject_init E;
     isabs := isabs E;
     abspath := abspath E;
     join := join E;
     find_package := find_package E;
     get_debug_flag := get_debug_flag E;
     Map_new := Map_new E;
     Config_new := Config_new E;
     FlaskGroup_new := FlaskGroup_new E;
     default_config := default_config E;
     has_static_folder := has_static_folder E;
     add_url_rule := f |}.

(** An attribute of the application's URL map. *)
Definition url_map_attr (self : obj) (k : string) : option val :=
  match self !! "url_map" with
  | Some (VObj _ attrs) => attrs !! k
  | _ => None
  end.

(** A registration method that touches nothing but the URL map and the
    view functions. *)
Definition registers_only {A R} (m : method A R) : Prop :=
  ∀ k, k ≠ "url_map" → k ≠ "_view_functions" → preserves k m.

(** ... and, of the URL map, leaves the attribute [k] alone. *)
Definition preserves_url_map_attr {A R} (k : string) (m : method A R) : Prop :=
  ∀ self x r self', m self x = ret (r, self') →
    url_map_attr self' k = url_map_attr self k.

(** A logger factory for the sample environment. *)
Definition sample_create_logger (self : obj) : result val :=
  match self !! "name" with
  | Some n => ret (VObj "Logger" (<["name" := n]> ∅))
  | None => raise (AttributeError "name")
  end.

(** Whether a computation returned. *)
Definition returned {A} (c : result A) : bool :=
  match c with inr _ => true | inl _ => false end.

(** [Flask("shop", static_url_path=p, static_folder="assets",
    host_matching=True, instance_relative_config=True)] *)
Definition static_args (p : string) : init_args :=
  {| import_name := "shop";
     static_url_path := Some p;
     static_folder := Some "assets";
     static_host := None;
     host_matching := true;
     subdomain_matching := false;
     template_folder := Some "templates";
     instance_path := None;
     instance_relative_config := true;
     root_path := None |}.

Definition static_app (p : string) : obj :=
  match init (sample_env true) (static_args p) with
  | inr app => app
  | inl _ => ∅
  end.

(** The sample environment for an application without a static folder. *)
Definition sample_env_no_static : Env :=
  {| PackageBoundObject_init := sample_pbo_init;
     isabs := posix_isabs;
     abspath := sample_abspath;
     join := posix_join;
     find_package := fun _ => ret (None, "/srv/app");
     get_debug_flag := false;
     Map_new := sample_Map;
     Config_new := fun root defaults =>
       VObj "Config" (<["root_path" := root]> (<["defaults" := defaults]> ∅));
     FlaskGroup_new := fun _ => VObj "FlaskGroup" ∅;
     default_config := VDict ∅;
     has_static_folder := fun _ => ret (VBool false);
     add_url_rule := sample_add_url_rule |}.

(** The sample environment for a package installed under a prefix:
    [find_package] returns the prefix. *)
Definition sample_env_installed : Env :=
  {| PackageBoundObject_init := sample_pbo_init;
     isabs := posix_isabs;
     abspath := sample_abspath;
     join := posix_join;
     find_package := fun _ => ret (Some "/usr", "/usr/lib/python3/site-packages");
     get_debug_flag := false;
     Map_new := sample_Map;
     Config_new := fun root defaults =>
       VObj "Config" (<["root_path" := root]> (<["defaults" := defaults]> ∅));
     FlaskGroup_new := fun _ => VObj "FlaskGroup" ∅;
     default_config := VDict ∅;
     has_static_folder := sample_has_static_folder;
     add_url_rule := sample_add_url_rule |}.
End AppMore.

(** ** Routing: converters, rules and the rule map *)

Module Routing.

Local Open Scope nat_scope.

(** Modelled from the spec: the Converter, Rule and Rule Map components
    (sections 3, 4.1, 4.2 and the URL reversal of section 6).  [app.py]
    only instantiates the map ([Map()]) and fills its converter table; the
    matching code is not under src/.  The spec leaves open the textual
    form of a Float and the relative rank of the constrained converters:
    the first is a parameter ([FloatCodec]), the second is fixed by
    [converter_rank], with Integer above String as the spec requires.
    Specificity follows section 3 (most literal segments, fewest
    wildcards) and then section 4.2 (typed variables above the greedy
    path, more constrained converters among rules of one shape). *)

(** *** Paths *)

Definition slash : Ascii.ascii := Ascii.ascii_of_nat 47.

(** [s.split("/")] *)
Fixpoint split_slash (s : string) : list string :=
  match s with
  | EmptyString => [""]
  | String c rest =>
      if Ascii.eqb c slash then "" :: split_slash rest
      else match split_slash rest with
           | h :: t => String c h :: t
           | [] => [String c ""]
           end
  end.

Definition join_slash (parts : list string) : string := String.concat "/" parts.

Fixpoint has_slash (s : string) : bool :=
  match s with
  | EmptyString => false
  | String c rest => Ascii.eqb c slash || has_slash rest
  end.

Definition nonempty (s : string) : bool := negb (String.eqb s "").

(** A path is its segments and whether it ends with a slash: "/shop/"
    is [["shop"]] with a trailing slash, "/" is no segment with one. *)
Record path := { segs : list string; trailing : bool }.

Definition parse_path (s : string) : option path :=
  match s with
  | String c rest =>
      if Ascii.eqb c slash then
        let parts := split_slash rest in
        match last parts with
        | Some "" => Some {| segs := removelast parts; trailing := true |}
        | _ => Some {| segs := parts; trailing := false |}
        end
      else None
  | EmptyString => None
  end.

Definition render_path (p : path) : string :=
  "/" ++ join_slash (if trailing p then (segs p ++ [""])%list else segs p).

(** *** Converters *)

(** The text of a floating-point number, as the host language reads and
    prints it. *)
Record FloatCodec := {
  float : Type;
  float_read : string → option float;
  float_show : float → string;
  float_negative : float → bool
}.

Inductive converter :=
| CString (minlength : nat) (maxlength : option nat)
| CInteger (min max : option N) (fixed_digits : option nat)
| CFloat (signed : bool)
| CPath
| CUUID
| CAny (alternatives : list string).

(** *** Rules *)

Inductive segment :=
| Lit (s : string)
| Var (name : string) (conv : converter).

Inductive host_constraint :=
| AnyHost
| Subdomain (s : string)
| Host (h : string).

(** The spec gives the build-only flag no part in [bind]; it is carried
    along. *)
Record Rule := {
  pattern : list segment;
  trailing_slash : bool;
  endpoint : string;
  methods : gset string;
  host : host_constraint;
  build_only : bool
}.

#[global] Instance converter_eq_dec : EqDecision converter.
Proof. solve_decision. Defined.
#[global] Instance segment_eq_dec : EqDecision segment.
Proof. solve_decision. Defined.
#[global] Instance host_constraint_eq_dec : EqDecision host_constraint.
Proof. solve_decision. Defined.

Fixpoint var_names (pat : list segment) : list string :=
  match pat with
  | [] => []
  | Lit _ :: pat' => var_names pat'
  | Var n _ :: pat' => n :: var_names pat'
  end.

Fixpoint var_converters (pat : list segment) : list converter :=
  match pat with
  | [] => []
  | Lit _ :: pat' => var_converters pat'
  | Var _ c :: pat' => c :: var_converters pat'
  end.

Fixpoint count_paths (pat : list segment) : nat :=
  match pat with
  | [] => 0
  | Var _ CPath :: pat' => S (count_paths pat')
  | _ :: pat' => count_paths pat'
  end.

(** *** Specificity *)

Fixpoint count_literals (pat : list segment) : nat :=
  match pat with
  | [] => 0
  | Lit _ :: pat' => S (count_literals pat')
  | Var _ _ :: pat' => count_literals pat'
  end.

(** The variables other than the greedy path. *)
Fixpoint count_typed (pat : list segment) : nat :=
  match pat with
  | [] => 0
  | Lit _ :: pat' => count_typed pat'
  | Var _ CPath :: pat' => count_typed pat'
  | Var _ _ :: pat' => S (count_typed pat')
  end.

(** Among rules of one shape, the more constrained converter ranks
    higher (a smaller number). *)
Definition converter_rank (c : converter) : nat :=
  match c with
  | CAny _ => 0
  | CUUID => 1
  | CInteger _ _ _ => 2
  | CFloat _ => 3
  | CString _ _ => 4
  | CPath => 5
  end.

(** The weight of a rule, computed from the types of its segments: how
    many are literal, how many are greedy paths, how many are typed
    variables, and the ranks of its converters from left to right. *)
Record Weight := {
  literals : nat;
  greedy : nat;
  typed : nat;
  ranks : list nat
}.

Definition weight (r : Rule) : Weight :=
  {| literals := count_literals (pattern r);
     greedy := count_paths (pattern r);
     typed := count_typed (pattern r);
     ranks := map converter_rank (var_converters (pattern r)) |}.

Fixpoint lex_ltb (a b : list nat) : bool :=
  match a, b with
  | _, [] => false
  | [], _ :: _ => true
  | x :: a', y :: b' => (x <? y) || ((x =? y) && lex_ltb a' b')
  end.

(** What is compared once the literal segments are as many: the fewer
    wildcards, greedy paths before typed variables, then the converters. *)
Definition wildcards (w : Weight) : list nat :=
  greedy w :: typed w :: ranks w.

(** [w1] ranks before [w2]: more literal segments; with as many, fewer
    greedy paths, then fewer typed variables; with the same numbers of
    each, the first more constrained converter. *)
Definition weight_ltb (w1 w2 : Weight) : bool :=
  (literals w2 <? literals w1)
  || ((literals w1 =? literals w2) && lex_ltb (wildcards w1) (wildcards w2)).

Definition more_specific (r1 r2 : Rule) : bool :=
  weight_ltb (weight r1) (weight r2).

(** A rule goes before the first rule that is strictly less specific:
    rules of equal weight keep their registration order. *)
Fixpoint insert_rule (r : Rule) (sorted : list Rule) : list Rule :=
  match sorted with
  | [] => [r]
  | x :: rest =>
      if more_specific r x then r :: x :: rest
      else x :: insert_rule r rest
  end.

Definition sort_rules (rs : list Rule) : list Rule :=
  foldl (fun sorted r => insert_rule r sorted) [] rs.

(** *** The rule map *)

Record RuleMap := { rules : list Rule }.

Inductive add_error := ValidationError | ConflictError.

Definition literal_ok (s : segment) : bool :=
  match s with
  | Lit t => nonempty t && negb (has_slash t)
  | Var _ _ => true
  end.

(** A well-formed pattern: no variable name twice, literals that are
    single segments, and the root written with its slash. *)
Definition valid_rule (r : Rule) : bool :=
  bool_decide (NoDup (var_names (pattern r)))
  && forallb literal_ok (pattern r)
  && match pattern r with [] => trailing_slash r | _ => true end.

Definition same_binding (r1 r2 : Rule) : bool :=
  bool_decide (pattern r1 = pattern r2)
  && Bool.eqb (trailing_slash r1) (trailing_slash r2)
  && bool_decide (methods r1 = methods r2)
  && bool_decide (host r1 = host r2).

Definition add (r : Rule) (m : RuleMap) : add_error + RuleMap :=
  if negb (valid_rule r) then inl ValidationError
  else if existsb (same_binding r) (rules m) then inl ConflictError
  else inr {| rules := (rules m ++ [r])%list |}.

Record BindArgs := {
  server_name : string;
  subdomain : string;
  script_root : string;
  path_info : string;
  method : string;
  query_args : string
}.

Definition host_ok (h : host_constraint) (a : BindArgs) : bool :=
  match h with
  | AnyHost => true
  | Subdomain s => String.eqb s (subdomain a)
  | Host n => String.eqb n (server_name a)
  end.

(** A piece of a built path: every segment of it is non-empty. *)
Definition piece_ok (x : string) : Prop := forallb nonempty (split_slash x) = true.

Section WithFloat.

Variable F : FloatCodec.

Inductive value :=
| VText (s : string)
| VInteger (n : N)
| VFloat (x : float F)
| VUuid (s : string).

Definition in_range (lo hi : option N) (n : N) : bool :=
  match lo with Some l => (l <=? n)%N | None => true end &&
  match hi with Some h => (n <=? h)%N | None => true end.

Definition length_ok (minlength : nat) (maxlength : option nat) (s : string) : bool :=
  (minlength <=? String.length s) &&
  match maxlength with Some m => String.length s <=? m | None => true end.

Definition is_digit (c : Ascii.ascii) : bool :=
  let n := Ascii.nat_of_ascii c in (48 <=? n) && (n <=? 57).

Definition is_lower_hex (c : Ascii.ascii) : bool :=
  let n := Ascii.nat_of_ascii c in
  ((48 <=? n) && (n <=? 57)) || ((97 <=? n) && (n <=? 102)).

(** The canonical textual form of a UUID: 8-4-4-4-12 lower-case
    hexadecimal digits. *)
Definition is_uuid (s : string) : bool :=
  let cs := String.list_ascii_of_string s in
  (length cs =? 36) &&
  forallb (fun ic : nat * Ascii.ascii =>
             if (ic.1 =? 8) || (ic.1 =? 13) || (ic.1 =? 18) || (ic.1 =? 23)
             then Ascii.eqb ic.2 (Ascii.ascii_of_nat 45)
             else is_lower_hex ic.2)
          (zip (seq 0 36) cs).

(** Decimal digits of a natural number and back. *)
Definition show_N (n : N) : string :=
  DecimalString.NilEmpty.string_of_uint (N.to_uint n).

Definition read_N (s : string) : option N :=
  if nonempty s then
    match DecimalString.NilEmpty.uint_of_string s with
    | Some d => Some (N.of_uint d)
    | None => None
    end
  else None.

Fixpoint zeros (k : nat) : string :=
  match k with
  | O => ""
  | S k' => String (Ascii.ascii_of_nat 48) (zeros k')
  end.

(** An integer printed on a fixed number of digits, when one is set and
    the number fits. *)
Definition show_fixed (digits : option nat) (n : N) : option string :=
  let s := show_N n in
  match digits with
  | None => Some s
  | Some k =>
      if String.length s <=? k then Some (zeros (k - String.length s) ++ s)
      else None
  end.

Definition digits_ok (digits : option nat) (s : string) : bool :=
  match digits with
  | None => true
  | Some k => String.length s =? k
  end.

Definition path_text_ok (s : string) : bool :=
  forallb nonempty (split_slash s).

(** [parse]: the typed value of a raw segment, or no match. *)
Definition parse (c : converter) (raw : string) : option value :=
  match c with
  | CString minlength maxlength =>
      if nonempty raw && negb (has_slash raw) && length_ok minlength maxlength raw
      then Some (VText raw) else None
  | CInteger lo hi digits =>
      match read_N raw with
      | Some n =>
          if digits_ok digits raw && in_range lo hi n then Some (VInteger n)
          else None
      | None => None
      end
  | CFloat signed =>
      match float_read F raw with
      | Some x =>
          if float_negative F x && negb signed then None else Some (VFloat x)
      | None => None
      end
  | CPath => if path_text_ok raw then Some (VText raw) else None
  | CUUID => if is_uuid raw then Some (VUuid raw) else None
  | CAny alternatives =>
      if nonempty raw && negb (has_slash raw)
         && existsb (String.eqb raw) alternatives
      then Some (VText raw) else None
  end.

(** [to_url]: the text of a value, when the converter accepts it. *)
Definition to_url (c : converter) (v : value) : option string :=
  match c, v with
  | CString minlength maxlength, VText s =>
      if nonempty s && negb (has_slash s) && length_ok minlength maxlength s
      then Some s else None
  | CInteger lo hi digits, VInteger n =>
      if in_range lo hi n then show_fixed digits n else None
  | CFloat signed, VFloat x =>
      if float_negative F x && negb signed then None else Some (float_show F x)
  | CPath, VText s => if path_text_ok s then Some s else None
  | CUUID, VUuid s => if is_uuid s then Some s else None
  | CAny alternatives, VText s =>
      if nonempty s && negb (has_slash s) && existsb (String.eqb s) alternatives
      then Some s else None
  | _, _ => None
  end.

(** What is asked of the host's float text: reading what was shown
    gives the number back, and the text is one non-empty segment. *)
Definition codec_ok : Prop :=
  ∀ x, float_read F (float_show F x) = Some x
       ∧ nonempty (float_show F x) = true
       ∧ has_slash (float_show F x) = false.

(** *** Matching *)

(** The segments of a path against a pattern, left to right.  A path
    variable is greedy: it takes as many segments as the rest of the
    pattern allows, the longest run first. *)
Fixpoint match_segments (pat : list segment) (ps : list string)
    : option (gmap string value) :=
  match pat with
  | [] => match ps with [] => Some ∅ | _ => None end
  | Lit s :: pat' =>
      match ps with
      | x :: ps' => if String.eqb s x then match_segments pat' ps' else None
      | [] => None
      end
  | Var n CPath :: pat' =>
      (fix longest (k : nat) : option (gmap string value) :=
         match k with
         | O => None
         | S k' =>
             match parse CPath (join_slash (take k ps)),
                   match_segments pat' (drop k ps) with
             | Some v, Some rest => Some (<[n := v]> rest)
             | _, _ => longest k'
             end
         end) (length ps)
  | Var n c :: pat' =>
      match ps with
      | x :: ps' =>
          match parse c x, match_segments pat' ps' with
          | Some v, Some rest => Some (<[n := v]> rest)
          | _, _ => None
          end
      | [] => None
      end
  end.

Inductive outcome :=
| Matched (endpoint : string) (params : gmap string value)
| MethodNotAllowed (allowed : gset string)
| RedirectRequired (corrected_path : string)
| NotFound.

Definition corrected (p : path) : string :=
  render_path {| segs := segs p; trailing := negb (trailing p) |}.

(** One rule against a request: the host constraint, then the path
    segments with converter parsing, then the method. *)
Inductive verdict :=
| Full (params : gmap string value)
| WrongMethod
| WrongSlash
| NoMatch.

Definition try_rule (a : BindArgs) (p : path) (r : Rule) : verdict :=
  if host_ok (host r) a then
    match match_segments (pattern r) (segs p) with
    | Some params =>
        if Bool.eqb (trailing_slash r) (trailing p) then
          if bool_decide (method a ∈ methods r) then Full params
          else WrongMethod
        else WrongSlash
    | None => NoMatch
    end
  else NoMatch.

(** Every rule in turn.  The first full match wins; a rule that matches
    but for the method adds its methods to the allowed ones; a rule that
    matches the path but for the trailing slash is remembered for a
    redirect. *)
Fixpoint scan (a : BindArgs) (p : path) (rs : list Rule)
    (allowed : option (gset string)) (redirect : option string) : outcome :=
  match rs with
  | [] =>
      match allowed, redirect with
      | Some ms, _ => MethodNotAllowed ms
      | None, Some target => RedirectRequired target
      | None, None => NotFound
      end
  | r :: rest =>
      match try_rule a p r with
      | Full params => Matched (endpoint r) params
      | WrongMethod =>
          scan a p rest (Some (default ∅ allowed ∪ methods r)) redirect
      | WrongSlash =>
          scan a p rest allowed
            (match redirect with Some t => Some t | None => Some (corrected p) end)
      | NoMatch => scan a p rest allowed redirect
      end
  end.

(** The rules are tried in specificity order.  (The spec caches the
    sorted list until the next [add]; sorting at each call returns the
    same list.) *)
Definition bind (m : RuleMap) (a : BindArgs) : outcome :=
  match parse_path (path_info a) with
  | Some p => scan a p (sort_rules (rules m)) None None
  | None => NotFound
  end.

(** *** URL reversal *)

Inductive build_error := BuildError.

Fixpoint build_segments (pat : list segment) (values : gmap string value)
    : option (list string) :=
  match pat with
  | [] => Some []
  | Lit s :: pat' =>
      match build_segments pat' values with
      | Some rest => Some (s :: rest)
      | None => None
      end
  | Var n c :: pat' =>
      match values !! n with
      | Some v =>
          match to_url c v, build_segments pat' values with
          | Some raw, Some rest => Some (raw :: rest)
          | _, _ => None
          end
      | None => None
      end
  end.

Definition build_rule (r : Rule) (values : gmap string value) : option string :=
  match build_segments (pattern r) values with
  | Some pieces =>
      Some (render_path {| segs := pieces; trailing := trailing_slash r |})
  | None => None
  end.

Definition method_ok (m : option string) (r : Rule) : bool :=
  match m with
  | Some x => bool_decide (x ∈ methods r)
  | None => true
  end.

(** The first rule of the endpoint (and method) that the values fit. *)
Fixpoint build_first (rs : list Rule) (ep : string)
    (values : gmap string value) (m : option string) : build_error + string :=
  match rs with
  | [] => inl BuildError
  | r :: rest =>
      if String.eqb (endpoint r) ep && method_ok m r then
        match build_rule r values with
        | Some url => inr url
        | None => build_first rest ep values m
        end
      else build_first rest ep values m
  end.

Definition build (m : RuleMap) (ep : string) (values : gmap string value)
    (meth : option string) : build_error + string :=
  build_first (rules m) ep values meth.

End WithFloat.

Arguments VText {F} s.
Arguments VInteger {F} n.
Arguments VFloat {F} x.
Arguments VUuid {F} s.
Arguments Matched {F} endpoint params.
Arguments MethodNotAllowed {F} allowed.
Arguments RedirectRequired {F} corrected_path.
Arguments NotFound {F}.
Arguments Full {F} params.
Arguments WrongMethod {F}.
Arguments WrongSlash {F}.
Arguments NoMatch {F}.

(** *** Sample data: a codec and the rules of the scenarios *)

(** A stand-in for the host's float text: a whole part and a fractional
    part, as two naturals separated by a point, never negative. *)
Fixpoint read_point (acc t : string) : option (N * N) :=
  match t with
  | EmptyString => None
  | String c rest =>
      if Ascii.eqb c (Ascii.ascii_of_nat 46) then
        match read_N (String.rev acc), read_N rest with
        | Some a, Some b => Some (a, b)
        | _, _ => None
        end
      else read_point (String c acc) rest
  end.

Definition sample_float_read (s : string) : option (N * N) := read_point "" s.

Definition sample_codec : FloatCodec :=
  {| float := N * N;
     float_read := sample_float_read;
     float_show := fun x => show_N x.1 ++ "." ++ show_N x.2;
     float_negative := fun _ => false |}.

Definition rule (pat : list segment) (slash_at_end : bool) (ep : string)
    (ms : list string) : Rule :=
  {| pattern := pat;
     trailing_slash := slash_at_end;
     endpoint := ep;
     methods := list_to_set ms;
     host := AnyHost;
     build_only := false |}.

(** /users/<int:id> and /users/<name> *)
Definition user_by_id : Rule :=
  rule [Lit "users"; Var "id" (CInteger None None None)] false "user_by_id" ["GET"].
Definition user_by_name : Rule :=
  rule [Lit "users"; Var "name" (CString 1 None)] false "user_by_name" ["GET"].
(** /item, GET only; /shop/ *)
Definition item : Rule := rule [Lit "item"] false "item" ["GET"].
Definition shop : Rule := rule [Lit "shop"] true "shop" ["GET"].
(** /files/<path:name> *)
Definition files : Rule := rule [Lit "files"; Var "name" CPath] false "files" ["GET"].
(** /x/<b>/<c> and /<a>/x/y *)
Definition one_literal : Rule :=
  rule [Lit "x"; Var "b" (CString 1 None); Var "c" (CString 1 None)]
    false "one_literal" ["GET"].
Definition two_literals : Rule :=
  rule [Var "a" (CString 1 None); Lit "x"; Lit "y"] false "two_literals" ["GET"].
(** /<a>/<b> and /<path:p> *)
Definition two_typed : Rule :=
  rule [Var "a" (CString 1 None); Var "b" (CString 1 None)]
    false "two_typed" ["GET"].
Definition catch_all : Rule := rule [Var "p" CPath] false "catch_all" ["GET"].

Definition request (meth path : string) : BindArgs :=
  {| server_name := "localhost";
     subdomain := "";
     script_root := "";
     path_info := path;
     method := meth;
     query_args := "" |}.

End Routing.

(** * Properties *)

(** ** The setup guard and the constructor *)

Section AppFacts.

Import App.
Variable E : Env.

Lemma getattr_instance (self : obj) (k : string) (v : val) :
  self !! k = Some v → getattr E self k = ret v.
Proof. intros H. unfold getattr. by rewrite H. Qed.

Lemma setup_guard_value (self : obj) (d g : val) :
  getattr E self "debug" = ret d →
  getattr E self "_got_first_request" = ret g →
  ∃ c, setup_guard E self = ret c ∧ truthy c = truthy d && truthy g.
Proof.
  intros Hd Hg. unfold setup_guard. rewrite Hd. cbn.
  destruct (truthy d) eqn:Td; eauto.
Qed.

(** C1. A method wrapped by [setupmethod], called on an application whose
    [debug] and [_got_first_request] attributes are set, raises the setup
    [AssertionError] when both are true and otherwise is the wrapped
    method itself; so, for a method that does not raise that very error on
    its own, the setup error is raised if and only if the application is in
    debug mode and a first request has been handled. *)
Theorem setupmethod_raises_iff {A R} (f : method A R) (self : obj) (args : A)
    (d g : val) :
  getattr E self "debug" = ret d →
  getattr E self "_got_first_request" = ret g →
  (truthy d && truthy g = true →
     setupmethod E f self args = raise setup_error) ∧
  (truthy d && truthy g = false →
     setupmethod E f self args = f self args) ∧
  (f self args ≠ raise setup_error →
     setupmethod E f self args = raise setup_error ↔
     truthy d && truthy g = true).
Proof.
  intros Hd Hg.
  destruct (setup_guard_value self d g Hd Hg) as (c & Hc & Tc).
  unfold setupmethod, wrapper_func. rewrite Hc. cbn. rewrite Tc.
  destruct (truthy d && truthy g); repeat split; done.
Qed.

Lemma bind_ret_inv {A B} (c : result A) (k : A → result B) (b : B) :
  Py.bind c k = ret b → ∃ a, c = ret a ∧ k a = ret b.
Proof. destruct c as [e|a]; cbn; [done | eauto]. Qed.

Lemma getattr_url_map (self : obj) (m : val) :
  getattr E self "url_map" = ret m → self !! "url_map" = Some m.
Proof.
  unfold getattr. destruct (self !! "url_map") as [v|] eqn:Hv.
  - intros [= ->]. done.
  - vm_compute. discriminate.
Qed.

Lemma set_url_map_attr_inv (self self' : obj) (k : string) (v : val) :
  set_url_map_attr E self k v = ret self' →
  ∃ cls attrs, self !! "url_map" = Some (VObj cls attrs) ∧
    self' = <["url_map" := VObj cls (<[k := v]> attrs)]> self.
Proof.
  unfold set_url_map_attr. intros H.
  apply bind_ret_inv in H as (m & Hm & H).
  apply bind_ret_inv in H as (m' & Hm' & H).
  apply getattr_url_map in Hm.
  destruct m; try discriminate. injection Hm' as <-. injection H as <-.
  eauto.
Qed.

Lemma set_converter_inv (self self' : obj) (name : string) (cls : val) :
  set_converter E self name cls = ret self' →
  ∃ d, converters_of self = Some d ∧
       converters_of self' = Some (<[name := cls]> d) ∧
       ∀ j, j ≠ "url_map" → self' !! j = self !! j.
Proof.
  unfold set_converter. intros H.
  apply bind_ret_inv in H as (m & Hm & H).
  apply bind_ret_inv in H as (c & Hc & H).
  apply bind_ret_inv in H as (c' & Hc' & H).
  apply bind_ret_inv in H as (m' & Hm' & H).
  apply getattr_url_map in Hm. injection H as <-.
  destruct m as [| | | | | | |mc attrs]; try discriminate.
  cbn in Hc. destruct (attrs !! "converters") as [cv|] eqn:Ha; [|discriminate].
  injection Hc as ->. destruct c as [| | | |d| | |]; try discriminate.
  injection Hc' as <-. injection Hm' as <-.
  exists d. unfold converters_of. rewrite Hm, lookup_insert_eq. cbn.
  rewrite Ha, lookup_insert_eq. repeat split; [done..|].
  intros j Hj. by rewrite lookup_insert_ne.
Qed.

Lemma set_url_map_attr_frame (self self' : obj) (k : string) (v : val) :
  k ≠ "converters" →
  set_url_map_attr E self k v = ret self' →
  converters_of self' = converters_of self ∧
  ∀ j, j ≠ "url_map" → self' !! j = self !! j.
Proof.
  intros Hk H. apply set_url_map_attr_inv in H as (cls & attrs & Hm & ->).
  split.
  - unfold converters_of. rewrite Hm, lookup_insert_eq. cbn.
    by rewrite lookup_insert_ne.
  - intros j Hj. by rewrite lookup_insert_ne.
Qed.

Lemma init_url_map_inv (self self' : obj) (a : init_args) :
  init_url_map E self a = ret self' →
  ∃ d0, map_converters (Map_new E) = Some d0 ∧
        converters_of self' = Some (install_converters d0) ∧
        ∀ j, j ≠ "url_map" → self' !! j = self !! j.
Proof.
  unfold init_url_map. intros H.
  apply bind_ret_inv in H as (s1 & H1 & H).
  apply bind_ret_inv in H as (s2 & H2 & H).
  apply bind_ret_inv in H as (s3 & H3 & H).
  apply bind_ret_inv in H as (s4 & H4 & H).
  apply bind_ret_inv in H as (s5 & H5 & H).
  apply bind_ret_inv in H as (s6 & H6 & H).
  apply bind_ret_inv in H as (s7 & H7 & H).
  apply bind_ret_inv in H as (s8 & H8 & H9).
  apply set_url_map_attr_frame in H1 as [C1 F1]; [|done].
  apply set_url_map_attr_frame in H2 as [C2 F2]; [|done].
  apply set_converter_inv in H3 as (d3 & D3 & C3 & F3).
  apply set_converter_inv in H4 as (d4 & D4 & C4 & F4).
  apply set_converter_inv in H5 as (d5 & D5 & C5 & F5).
  apply set_converter_inv in H6 as (d6 & D6 & C6 & F6).
  apply set_converter_inv in H7 as (d7 & D7 & C7 & F7).
  apply set_converter_inv in H8 as (d8 & D8 & C8 & F8).
  apply set_converter_inv in H9 as (d9 & D9 & C9 & F9).
  exists d3. split; [|split].
  - rewrite C2, C1 in D3. unfold converters_of in D3.
    by rewrite lookup_insert_eq in D3.
  - rewrite C9. f_equal. unfold install_converters. congruence.
  - intros j Hj. rewrite F9, F8, F7, F6, F5, F4, F3, F2, F1 by done.
    by rewrite lookup_insert_ne.
Qed.

Lemma init_static_route_frame (self self' : obj) (a : init_args) (k : string) :
  preserves k (add_url_rule E) →
  init_static_route E self a = ret self' →
  self' !! k = self !! k.
Proof.
  intros Hp. unfold init_static_route. intros H.
  apply bind_ret_inv in H as (hsf & _ & H).
  destruct (truthy hsf); [|by injection H as <-].
  apply bind_ret_inv in H as (sup & _ & H).
  apply bind_ret_inv in H as (rule & _ & H).
  apply bind_ret_inv in H as ([r s'] & Hr & H).
  injection H as <-. by eapply Hp.
Qed.

Lemma init_static_route_converters (self self' : obj) (a : init_args) :
  preserves_converters (add_url_rule E) →
  init_static_route E self a = ret self' →
  converters_of self' = converters_of self.
Proof.
  intros Hp. unfold init_static_route. intros H.
  apply bind_ret_inv in H as (hsf & _ & H).
  destruct (truthy hsf); [|by injection H as <-].
  apply bind_ret_inv in H as (sup & _ & H).
  apply bind_ret_inv in H as (rule & _ & H).
  apply bind_ret_inv in H as ([r s'] & Hr & H).
  injection H as <-. by eapply Hp.
Qed.

Lemma init_tail_inv (self app : obj) :
  init_tail E self = ret app →
  app !! "debug" = Some (VBool (get_debug_flag E)) ∧
  ∀ j, j ≠ "_logger" → j ≠ "name" → j ≠ "debug" → j ≠ "_cli_commands" →
       app !! j = self !! j.
Proof.
  unfold init_tail. intros H.
  apply bind_ret_inv in H as (n & _ & H). injection H as <-.
  split.
  { rewrite lookup_insert_ne by done. by rewrite lookup_insert_eq. }
  intros j ????. by rewrite !lookup_insert_ne.
Qed.

Lemma init_registries_lookup (self : obj) (j : string) :
  j = "url_map" ∨ j = "instance_path" →
  init_registries E self !! j = self !! j.
Proof.
  intros [->| ->]; unfold init_registries; by rewrite !lookup_insert_ne.
Qed.

Lemma init_registries_got_first_request (self : obj) :
  init_registries E self !! "_got_first_request" = Some (VBool false).
Proof.
  unfold init_registries.
  rewrite lookup_insert_ne by done. by rewrite lookup_insert_eq.
Qed.

(** The stages of a construction that returns. *)
Lemma init_inv (a : init_args) (app : obj) :
  init E a = ret app →
  ∃ self0 ip config s_map s_static,
    PackageBoundObject_init E ∅ (import_name a) (template_folder a)
      (root_path a) = ret self0 ∧
    init_instance_path E (init_static_attrs self0 a) a = ret ip ∧
    init_url_map E
      (<["_error_handlers" := VDict ∅]>
       (<["_view_functions" := VDict ∅]>
       (<["config" := config]>
       (<["instance_path" := VStr ip]> (init_static_attrs self0 a))))) a
      = ret s_map ∧
    init_static_route E (init_registries E s_map) a = ret s_static ∧
    init_tail E s_static = ret app.
Proof.
  unfold init. intros H.
  apply bind_ret_inv in H as (self0 & H0 & H).
  apply bind_ret_inv in H as (ip & Hip & H).
  apply bind_ret_inv in H as (config & Hc & H).
  apply bind_ret_inv in H as (s_map & Hm & H).
  apply bind_ret_inv in H as (s_static & Hs & H).
  eauto 10.
Qed.

(** C10. A construction that returns leaves [_got_first_request] false, and
    on the constructed application a method wrapped by [setupmethod] is the
    wrapped method itself, whatever the debug flag: the setup error cannot
    be raised before a first request. *)
Theorem fresh_app_setup_guard_open (a : init_args) (app : obj) :
  preserves "_got_first_request" (add_url_rule E) →
  init E a = ret app →
  app !! "_got_first_request" = Some (VBool false) ∧
  ∀ A R (f : method A R) (args : A), setupmethod E f app args = f app args.
Proof.
  intros Hp H.
  apply init_inv in H as (self0 & ip & config & s_map & s_static
                          & _ & _ & _ & Hs & Ht).
  apply init_tail_inv in Ht as [Hd Hf].
  assert (Hg : app !! "_got_first_request" = Some (VBool false)).
  { rewrite Hf by done.
    rewrite (init_static_route_frame _ _ _ _ Hp Hs).
    apply init_registries_got_first_request. }
  split; [done|]. intros A R f args.
  apply (setupmethod_raises_iff f app args (VBool (get_debug_flag E)) (VBool false)).
  - by apply getattr_instance.
  - by apply getattr_instance.
  - cbn. apply andb_false_r.
Qed.

(** C8. After a construction that returns, the converter table of the URL
    map is the table [Map()] came with, overwritten at the seven names
    "default", "string", "any", "path", "int", "float" and "uuid"; when
    [Map()] brings no other name, the table has exactly these seven
    entries, one per converter variant, and "default" and "string" are
    both the Unicode converter. *)
Theorem init_converter_table (a : init_args) (app : obj) :
  preserves_converters (add_url_rule E) →
  (∀ d0, map_converters (Map_new E) = Some d0 → dom d0 ⊆ converter_names) →
  init E a = ret app →
  ∃ d, converters_of app = Some d ∧
       dom d = converter_names ∧
       d !! "default" = Some (VClass "UnicodeConverter") ∧
       d !! "string" = Some (VClass "UnicodeConverter") ∧
       d !! "any" = Some (VClass "AnyConverter") ∧
       d !! "path" = Some (VClass "PathConverter") ∧
       d !! "int" = Some (VClass "IntegerConverter") ∧
       d !! "float" = Some (VClass "FloatConverter") ∧
       d !! "uuid" = Some (VClass "UUIDConverter").
Proof.
  intros Hp Hd0 H.
  apply init_inv in H as (self0 & ip & config & s_map & s_static
                          & _ & _ & Hm & Hs & Ht).
  apply init_url_map_inv in Hm as (d0 & Hd & Hc & _).
  apply init_tail_inv in Ht as [_ Hf].
  exists (install_converters d0). split.
  - unfold converters_of. rewrite Hf by done.
    change (converters_of s_static = Some (install_converters d0)).
    rewrite (init_static_route_converters _ _ _ Hp Hs).
    unfold converters_of. rewrite init_registries_lookup by auto. exact Hc.
  - split.
    + specialize (Hd0 d0 Hd). unfold install_converters.
      rewrite !dom_insert_L. unfold converter_names in *. set_solver.
    + unfold install_converters.
      repeat split;
        repeat (first [ by rewrite lookup_insert_eq
                      | rewrite lookup_insert_ne by done ]).
Qed.

(** C9. The constructor raises [ValueError] when it is given an instance
    path that is not absolute; a construction that returns has set
    [instance_path]: to the given path, which is absolute, or, when none
    was given, to the absolute path that [auto_find_instance_path]
    computed. *)
Theorem init_instance_path_checked (a : init_args) :
  (∀ p, isabs E (abspath E p) = true) →
  preserves "instance_path" (add_url_rule E) →
  (∀ self0 p,
     PackageBoundObject_init E ∅ (import_name a) (template_folder a)
       (root_path a) = ret self0 →
     instance_path a = Some p → isabs E p = false →
     init E a = raise (instance_path_error p)) ∧
  (∀ app, init E a = ret app →
     ∃ p, app !! "instance_path" = Some (VStr p) ∧ isabs E p = true ∧
          match instance_path a with
          | Some q => p = q
          | None => ∃ self, auto_find_instance_path E self = ret p
          end).
Proof.
  intros Habs Hp. split.
  - intros self0 p H0 Ha Hrel. unfold init. rewrite H0. cbn.
    unfold init_instance_path. rewrite Ha, Hrel. done.
  - intros app H.
    apply init_inv in H as (self0 & ip & config & s_map & s_static
                            & _ & Hip & Hm & Hs & Ht).
    apply init_url_map_inv in Hm as (d0 & _ & _ & Hf1).
    apply init_tail_inv in Ht as [_ Hf2].
    exists ip. split; [|split].
    + rewrite Hf2 by done. rewrite (init_static_route_frame _ _ _ _ Hp Hs).
      rewrite init_registries_lookup by auto. rewrite Hf1 by done.
      rewrite !lookup_insert_ne by done. by rewrite lookup_insert_eq.
    + unfold init_instance_path in Hip.
      destruct (instance_path a) as [q|].
      * destruct (isabs E q) eqn:Hq; cbn in Hip; [|done]. by injection Hip as <-.
      * unfold auto_find_instance_path in Hip.
        apply bind_ret_inv in Hip as (n & _ & Hip).
        apply bind_ret_inv in Hip as (pp & _ & Hip).
        destruct (pp.1).
        -- apply bind_ret_inv in Hip as (nm & _ & Hip). by injection Hip as <-.
        -- by injection Hip as <-.
    + unfold init_instance_path in Hip.
      destruct (instance_path a) as [q|]; [|eauto].
      destruct (isabs E q); cbn in Hip; [|done]. by injection Hip as <-.
Qed.

End AppFacts.

(** *** The sample environment meets the assumptions *)

Section SampleEnv.

Import App.

Lemma sample_abspath_isabs (p : string) : posix_isabs (sample_abspath p) = true.
Proof. unfold sample_abspath. by destruct (posix_isabs p) eqn:H. Qed.

Lemma sample_add_url_rule_preserves (k : string) :
  k ≠ "url_map" → preserves k sample_add_url_rule.
Proof.
  intros Hk self [[[rule endpoint] host] view] r self' H.
  unfold sample_add_url_rule in H.
  destruct (self !! "url_map") as [[| | | | | | |cls attrs]|]; try done.
  destruct (attrs !! "_rules") as [[| | |rules| | | |]|]; try done.
  injection H as _ <-. by rewrite lookup_insert_ne.
Qed.

Lemma sample_add_url_rule_preserves_converters :
  preserves_converters sample_add_url_rule.
Proof.
  intros self [[[rule endpoint] host] view] r self' H.
  unfold sample_add_url_rule in H. unfold converters_of.
  destruct (self !! "url_map") as [[| | | | | | |cls attrs]|]; try done.
  destruct (attrs !! "_rules") as [[| | |rules| | | |]|]; try done.
  injection H as _ <-. rewrite lookup_insert_eq. cbn.
  by rewrite lookup_insert_ne.
Qed.

Lemma returned_eq {A} (c : result A) (d : A) :
  AppMore.returned c = true →
  c = ret (match c with inr x => x | inl _ => d end).
Proof. by destruct c. Qed.

Lemma sample_app_constructed (debug : bool) :
  init (sample_env debug) (default_args "shop") = ret (sample_app debug).
Proof.
  unfold sample_app. destruct debug; apply returned_eq; vm_compute; reflexivity.
Qed.

End SampleEnv.

Lemma setupmethod_raises_iff_witness :
  let E := App.sample_env true in
  let self := <["_got_first_request" := VBool true]> (App.sample_app true) in
  let f := App.sample_register "_before_request_funcs" in
  App.setupmethod E f self (VMethod "hook") = raise App.setup_error ∧
  App.setupmethod E f (App.sample_app true) (VMethod "hook")
    = f (App.sample_app true) (VMethod "hook").
Proof.
  intros E self f. split.
  - destruct (setupmethod_raises_iff E f self (VMethod "hook")
                (VBool true) (VBool true)) as (Hraise & _ & _);
      [vm_compute; reflexivity..|].
    apply Hraise. reflexivity.
  - destruct (setupmethod_raises_iff E f (App.sample_app true) (VMethod "hook")
                (VBool true) (VBool false)) as (_ & Hcall & _);
      [vm_compute; reflexivity..|].
    apply Hcall. reflexivity.
Defined.

Lemma fresh_app_setup_guard_open_witness :
  App.sample_app true !! "_got_first_request" = Some (VBool false) ∧
  App.setupmethod (App.sample_env true) (App.sample_register "_after_request_funcs")
    (App.sample_app true) (VMethod "hook")
  = App.sample_register "_after_request_funcs" (App.sample_app true) (VMethod "hook").
Proof.
  destruct (fresh_app_setup_guard_open (App.sample_env true)
              (App.default_args "shop") (App.sample_app true)) as [Hg Hf].
  - apply sample_add_url_rule_preserves. done.
  - apply sample_app_constructed.
  - split; [exact Hg | apply Hf].
Defined.

Lemma init_converter_table_witness :
  ∃ d, App.converters_of (App.sample_app false) = Some d ∧
       dom d = App.converter_names.
Proof.
  destruct (init_converter_table (App.sample_env false)
              (App.default_args "shop") (App.sample_app false))
    as (d & Hd & Hdom & _).
  - apply sample_add_url_rule_preserves_converters.
  - intros d0 H. change (Some App.default_converters = Some d0) in H.
    injection H as <-. apply (bool_decide_unpack _). vm_compute. exact I.
  - apply sample_app_constructed.
  - eauto.
Defined.

Lemma init_instance_path_checked_witness :
  App.init (App.sample_env false) (App.instance_args "var/shop")
    = raise (App.instance_path_error "var/shop") ∧
  ∃ p, App.sample_app false !! "instance_path" = Some (VStr p) ∧
       App.posix_isabs p = true.
Proof.
  split.
  - destruct (init_instance_path_checked (App.sample_env false)
                (App.instance_args "var/shop")) as [Hraise _].
    + apply sample_abspath_isabs.
    + by apply sample_add_url_rule_preserves.
    + eapply Hraise; reflexivity.
  - destruct (init_instance_path_checked (App.sample_env false)
                (App.default_args "shop")) as [_ Hset].
    + apply sample_abspath_isabs.
    + by apply sample_add_url_rule_preserves.
    + destruct (Hset _ (sample_app_constructed false)) as (p & Hp & Habs & _).
      eauto.
Defined.

(** ** Routing *)

Section RoutingOrder.

Import Routing.

Lemma lex_ltb_irrefl (a : list nat) : lex_ltb a a = false.
Proof.
  induction a as [|x a IH]; [done|]. simpl.
  rewrite Nat.ltb_irrefl, Nat.eqb_refl, IH. done.
Qed.

Lemma lex_ltb_trans (a b c : list nat) :
  lex_ltb a b = true → lex_ltb b c = true → lex_ltb a c = true.
Proof.
  revert b c. induction a as [|x a IH]; intros [|y b] [|z c]; simpl; try done.
  rewrite !orb_true_iff, !andb_true_iff, !Nat.ltb_lt, !Nat.eqb_eq.
  intros [Hxy|[-> Hab]] [Hyz|[-> Hbc]]; eauto with lia.
Qed.

Lemma lex_ltb_total (a b : list nat) :
  lex_ltb a b = true ∨ a = b ∨ lex_ltb b a = true.
Proof.
  revert b. induction a as [|x a IH]; intros [|y b]; simpl; auto.
  destruct (Nat.lt_trichotomy x y) as [H|[->|H]].
  - left. apply orb_true_iff. left. by apply Nat.ltb_lt.
  - rewrite Nat.ltb_irrefl, Nat.eqb_refl. simpl.
    destruct (IH b) as [?|[->|?]]; auto.
  - right; right. apply orb_true_iff. left. by apply Nat.ltb_lt.
Qed.

Lemma lex_ltb_app_lt (l a b : list nat) (x y : nat) :
  x < y → lex_ltb (l ++ x :: a) (l ++ y :: b) = true.
Proof.
  intros Hxy. induction l as [|z l IH]; simpl.
  - apply orb_true_iff. left. by apply Nat.ltb_lt.
  - by rewrite Nat.ltb_irrefl, Nat.eqb_refl, IH.
Qed.

Lemma weight_ltb_irrefl (w : Weight) : weight_ltb w w = false.
Proof.
  unfold weight_ltb. by rewrite Nat.ltb_irrefl, Nat.eqb_refl, lex_ltb_irrefl.
Qed.

Lemma weight_ltb_trans (w1 w2 w3 : Weight) :
  weight_ltb w1 w2 = true → weight_ltb w2 w3 = true → weight_ltb w1 w3 = true.
Proof.
  unfold weight_ltb.
  rewrite !orb_true_iff, !andb_true_iff, !Nat.ltb_lt, !Nat.eqb_eq.
  intros [H12|[E12 L12]] [H23|[E23 L23]].
  - left. lia.
  - left. lia.
  - left. lia.
  - right. split; [lia|]. by eapply lex_ltb_trans.
Qed.

Lemma wildcards_inj (w1 w2 : Weight) :
  literals w1 = literals w2 → wildcards w1 = wildcards w2 → w1 = w2.
Proof.
  destruct w1, w2. unfold wildcards. simpl. intros -> [= -> -> ->]. done.
Qed.

Lemma weight_ltb_total (w1 w2 : Weight) :
  weight_ltb w1 w2 = true ∨ w1 = w2 ∨ weight_ltb w2 w1 = true.
Proof.
  unfold weight_ltb.
  destruct (Nat.lt_trichotomy (literals w1) (literals w2)) as [H|[H|H]].
  - right; right. apply orb_true_iff. left. by apply Nat.ltb_lt.
  - destruct (lex_ltb_total (wildcards w1) (wildcards w2)) as [L|[L|L]].
    + left. apply orb_true_iff. right.
      apply andb_true_iff. split; [by apply Nat.eqb_eq|done].
    + right; left. by apply wildcards_inj.
    + right; right. apply orb_true_iff. right.
      apply andb_true_iff. split; [by apply Nat.eqb_eq|done].
  - left. apply orb_true_iff. left. by apply Nat.ltb_lt.
Qed.

(** [r1] is not placed after [r2]: [r2] is not strictly more specific. *)
Definition not_after (r1 r2 : Rule) : Prop := more_specific r2 r1 = false.

Lemma more_specific_irrefl (r : Rule) : more_specific r r = false.
Proof. apply weight_ltb_irrefl. Qed.

Lemma more_specific_trans (r1 r2 r3 : Rule) :
  more_specific r1 r2 = true → more_specific r2 r3 = true →
  more_specific r1 r3 = true.
Proof. apply weight_ltb_trans. Qed.

Lemma more_specific_asym (r1 r2 : Rule) :
  more_specific r1 r2 = true → more_specific r2 r1 = false.
Proof.
  intros H. destruct (more_specific r2 r1) eqn:H'; [|done].
  pose proof (more_specific_trans _ _ _ H H') as Hc.
  by rewrite more_specific_irrefl in Hc.
Qed.

Lemma not_after_trans (r1 r2 r3 : Rule) :
  not_after r1 r2 → not_after r2 r3 → not_after r1 r3.
Proof.
  unfold not_after, more_specific. intros H12 H23.
  destruct (weight_ltb (weight r3) (weight r1)) eqn:H31; [|done].
  destruct (weight_ltb_total (weight r2) (weight r1)) as [H|[H|H]].
  - congruence.
  - rewrite H in H23. congruence.
  - pose proof (weight_ltb_trans _ _ _ H31 H). congruence.
Qed.

(** The counts of a pattern, piece by piece. *)
Lemma count_literals_app (p q : list segment) :
  count_literals (p ++ q) = count_literals p + count_literals q.
Proof. induction p as [|[|] p IH]; simpl; lia. Qed.

Lemma count_paths_app (p q : list segment) :
  count_paths (p ++ q) = count_paths p + count_paths q.
Proof. induction p as [|[s|n []] p IH]; simpl; lia. Qed.

Lemma count_typed_app (p q : list segment) :
  count_typed (p ++ q) = count_typed p + count_typed q.
Proof. induction p as [|[s|n []] p IH]; simpl; lia. Qed.

Lemma var_converters_app (p q : list segment) :
  var_converters (p ++ q) = (var_converters p ++ var_converters q)%list.
Proof. induction p as [|[s|n c] p IH]; simpl; by rewrite ?IH. Qed.

Lemma count_typed_var (n : string) (c : converter) :
  c ≠ CPath → count_typed [Var n c] = 1.
Proof. by destruct c. Qed.

Lemma count_paths_var (n : string) (c : converter) :
  c ≠ CPath → count_paths [Var n c] = 0.
Proof. by destruct c. Qed.

(** More literal segments make a rule more specific. *)
Lemma more_literals_more_specific (r1 r2 : Rule) :
  count_literals (pattern r2) < count_literals (pattern r1) →
  more_specific r1 r2 = true.
Proof.
  intros H. unfold more_specific, weight_ltb. simpl.
  apply orb_true_iff. left. by apply Nat.ltb_lt.
Qed.

(** A literal where the other rule has a variable. *)
Lemma literal_above_variable (r1 r2 : Rule) (pre post : list segment)
    (s n : string) (c : converter) :
  pattern r1 = (pre ++ Lit s :: post)%list →
  pattern r2 = (pre ++ Var n c :: post)%list →
  more_specific r1 r2 = true.
Proof.
  intros H1 H2. apply more_literals_more_specific.
  rewrite H1, H2, !count_literals_app. simpl. lia.
Qed.

(** A typed variable where the other rule has the greedy path. *)
Lemma typed_above_path (r1 r2 : Rule) (pre post : list segment)
    (n n' : string) (c : converter) :
  c ≠ CPath →
  pattern r1 = (pre ++ Var n c :: post)%list →
  pattern r2 = (pre ++ Var n' CPath :: post)%list →
  more_specific r1 r2 = true.
Proof.
  intros Hc H1 H2. unfold more_specific, weight_ltb, wildcards. simpl.
  rewrite H1, H2, !count_literals_app. simpl.
  apply orb_true_iff. right. rewrite Nat.eqb_refl. simpl.
  apply orb_true_iff. left. apply Nat.ltb_lt.
  rewrite !(count_paths_app pre).
  change (Var n c :: post) with ([Var n c] ++ post)%list.
  rewrite (count_paths_app [Var n c]), (count_paths_var n c Hc). simpl. lia.
Qed.

(** An integer where the other rule has a string. *)
Lemma integer_above_string (r1 r2 : Rule) (pre post : list segment)
    (n n' : string) (lo hi : option N) (digits : option nat)
    (minlength : nat) (maxlength : option nat) :
  pattern r1 = (pre ++ Var n (CInteger lo hi digits) :: post)%list →
  pattern r2 = (pre ++ Var n' (CString minlength maxlength) :: post)%list →
  more_specific r1 r2 = true.
Proof.
  intros H1 H2. unfold more_specific, weight_ltb, wildcards. simpl.
  rewrite H1, H2, !count_literals_app, !count_paths_app, !count_typed_app,
    !var_converters_app, !map_app. simpl.
  apply orb_true_iff. right. rewrite Nat.eqb_refl. simpl.
  rewrite !Nat.ltb_irrefl, !Nat.eqb_refl. simpl.
  apply lex_ltb_app_lt. lia.
Qed.

Lemma insert_rule_perm (r : Rule) (l : list Rule) :
  insert_rule r l ≡ₚ r :: l.
Proof.
  induction l as [|x l IH]; cbn; [done|].
  destruct (more_specific r x); [done|].
  rewrite IH. apply Permutation_swap.
Qed.

Lemma sort_rules_perm_acc (rs acc : list Rule) :
  foldl (fun sorted r => insert_rule r sorted) acc rs ≡ₚ (acc ++ rs)%list.
Proof.
  revert acc. induction rs as [|r rs IH]; intros acc; cbn.
  - by rewrite app_nil_r.
  - rewrite IH, insert_rule_perm. simpl. apply Permutation_middle.
Qed.

Lemma sort_rules_perm (rs : list Rule) : sort_rules rs ≡ₚ rs.
Proof. unfold sort_rules. by rewrite sort_rules_perm_acc. Qed.

Lemma insert_rule_sorted (r : Rule) (l : list Rule) :
  StronglySorted not_after l → StronglySorted not_after (insert_rule r l).
Proof.
  induction 1 as [|x l Hl IH Hx]; cbn.
  - repeat constructor.
  - destruct (more_specific r x) eqn:Hrx.
    + constructor; [by constructor|]. constructor.
      * by apply more_specific_asym.
      * eapply Forall_impl; [exact Hx|]. intros y Hy.
        eapply not_after_trans; [|exact Hy]. by apply more_specific_asym.
    + constructor; [done|].
      rewrite insert_rule_perm. by constructor.
Qed.

Lemma sort_rules_sorted (rs : list Rule) :
  StronglySorted not_after (sort_rules rs).
Proof.
  unfold sort_rules.
  assert (H : ∀ acc, StronglySorted not_after acc →
    StronglySorted not_after
      (foldl (fun sorted r => insert_rule r sorted) acc rs)).
  { induction rs as [|r rs IH]; intros acc Hacc; cbn; [done|].
    apply IH. by apply insert_rule_sorted. }
  apply H. constructor.
Qed.

End RoutingOrder.

Section RoutingFacts.

Import Routing.
Variable F : FloatCodec.

(** In a list sorted by specificity, the scan stops at the matching rule
    that is strictly more specific than every other matching rule. *)
Lemma scan_sorted_best (a : BindArgs) (p : path) (l : list Rule)
    (r1 : Rule) (params : gmap string (value F)) :
  StronglySorted not_after l →
  r1 ∈ l →
  try_rule F a p r1 = Full params →
  (∀ r2 params2, r2 ∈ l → try_rule F a p r2 = Full params2 →
     r2 = r1 ∨ more_specific r1 r2 = true) →
  ∀ al rd, scan F a p l al rd = Matched (endpoint r1) params.
Proof.
  induction 1 as [|x l Hl IH Hx]; intros Hin Hfull Hbest al rd.
  - by apply elem_of_nil in Hin.
  - simpl. destruct (try_rule F a p x) as [px| | |] eqn:Hx1.
    + destruct (Hbest x px) as [->|Hlt]; [left|done| |].
      * congruence.
      * apply elem_of_cons in Hin as [->|Hin].
        { by rewrite more_specific_irrefl in Hlt. }
        rewrite Forall_forall in Hx. specialize (Hx _ Hin).
        unfold not_after in Hx. congruence.
    + apply elem_of_cons in Hin as [->|Hin]; [congruence|].
      apply IH; [done..|]. intros r2 p2 H2. apply Hbest. by right.
    + apply elem_of_cons in Hin as [->|Hin]; [congruence|].
      apply IH; [done..|]. intros r2 p2 H2. apply Hbest. by right.
    + apply elem_of_cons in Hin as [->|Hin]; [congruence|].
      apply IH; [done..|]. intros r2 p2 H2. apply Hbest. by right.
Qed.

(** Two rules of the same specificity: the one registered first wins. *)
Lemma bind_tie_first (r1 r2 : Rule) (a : BindArgs) (p : path)
    (params : gmap string (value F)) :
  parse_path (path_info a) = Some p →
  more_specific r2 r1 = false →
  try_rule F a p r1 = Full params →
  bind F {| rules := [r1; r2] |} a = Matched (endpoint r1) params.
Proof.
  intros Hp H21 Hfull. unfold bind. rewrite Hp. unfold sort_rules. simpl.
  rewrite H21. simpl. by rewrite Hfull.
Qed.

(** C5. When a registered rule matches a request and is strictly more
    specific than every other registered rule that matches it, [bind]
    returns that rule's endpoint and parameters, in whatever order the
    rules were registered.  The more specific rule is the one with more
    literal segments; a literal segment ranks above a variable in its
    place, a typed variable above the greedy path, an integer above a
    string; two matching rules of the same specificity are decided by
    registration order.  With /users/<int:id> and /users/<name>
    registered in either order, /users/42 binds to the integer rule with
    id = 42 and /users/abc to the name rule with name = "abc"; with
    /x/<b>/<c> and /<a>/x/y, /x/x/y binds to the rule with two literal
    segments; with /<a>/<b> and /<path:p>, /x/y binds to the rule of
    typed variables. *)
Theorem bind_most_specific :
  (∀ (rs : list Rule) (a : BindArgs) (p : path) (r1 : Rule)
     (params : gmap string (value F)),
     parse_path (path_info a) = Some p →
     r1 ∈ rs →
     try_rule F a p r1 = Full params →
     (∀ r2 params2, r2 ∈ rs → try_rule F a p r2 = Full params2 →
        r2 = r1 ∨ more_specific r1 r2 = true) →
     ∀ rs', rs' ≡ₚ rs →
       bind F {| rules := rs' |} a = Matched (endpoint r1) params) ∧
  (∀ r1 r2 : Rule,
     count_literals (pattern r2) < count_literals (pattern r1) →
     more_specific r1 r2 = true) ∧
  (∀ (r1 r2 : Rule) (pre post : list segment) (s n : string) (c : converter),
     pattern r1 = (pre ++ Lit s :: post)%list →
     pattern r2 = (pre ++ Var n c :: post)%list →
     more_specific r1 r2 = true) ∧
  (∀ (r1 r2 : Rule) (pre post : list segment) (n n' : string) (c : converter),
     c ≠ CPath →
     pattern r1 = (pre ++ Var n c :: post)%list →
     pattern r2 = (pre ++ Var n' CPath :: post)%list →
     more_specific r1 r2 = true) ∧
  (∀ (r1 r2 : Rule) (pre post : list segment) (n n' : string)
     (lo hi : option N) (digits : option nat)
     (minlength : nat) (maxlength : option nat),
     pattern r1 = (pre ++ Var n (CInteger lo hi digits) :: post)%list →
     pattern r2 = (pre ++ Var n' (CString minlength maxlength) :: post)%list →
     more_specific r1 r2 = true) ∧
  (∀ (r1 r2 : Rule) (a : BindArgs) (p : path) (params : gmap string (value F)),
     parse_path (path_info a) = Some p →
     more_specific r2 r1 = false →
     try_rule F a p r1 = Full params →
     bind F {| rules := [r1; r2] |} a = Matched (endpoint r1) params) ∧
  (∀ rs, rs = [user_by_id; user_by_name] ∨ rs = [user_by_name; user_by_id] →
     bind F {| rules := rs |} (request "GET" "/users/42")
       = Matched "user_by_id" {[ "id" := VInteger 42 ]} ∧
     bind F {| rules := rs |} (request "GET" "/users/abc")
       = Matched "user_by_name" {[ "name" := VText "abc" ]}) ∧
  (∀ rs, rs = [one_literal; two_literals] ∨ rs = [two_literals; one_literal] →
     bind F {| rules := rs |} (request "GET" "/x/x/y")
       = Matched "two_literals" {[ "a" := VText "x" ]}) ∧
  (∀ rs, rs = [two_typed; catch_all] ∨ rs = [catch_all; two_typed] →
     bind F {| rules := rs |} (request "GET" "/x/y")
       = Matched "two_typed" (<["a" := VText "x"]> {[ "b" := VText "y" ]})).
Proof.
  split; [|split; [|split; [|split; [|split; [|split; [|split; [|split]]]]]]].
  - intros rs a p r1 params Hp Hin Hfull Hbest rs' Hperm.
    unfold bind. rewrite Hp. simpl.
    apply scan_sorted_best.
    + apply sort_rules_sorted.
    + by rewrite sort_rules_perm, Hperm.
    + done.
    + intros r2 p2 H2. apply Hbest. by rewrite <- Hperm, <- sort_rules_perm.
  - apply more_literals_more_specific.
  - apply literal_above_variable.
  - apply typed_above_path.
  - apply integer_above_string.
  - apply bind_tie_first.
  - intros rs [-> | ->]; split; vm_compute; reflexivity.
  - intros rs [-> | ->]; vm_compute; reflexivity.
  - intros rs [-> | ->]; vm_compute; reflexivity.
Qed.

End RoutingFacts.

Lemma bind_most_specific_witness :
  Routing.bind Routing.sample_codec
    {| Routing.rules := [Routing.user_by_name; Routing.files; Routing.user_by_id] |}
    (Routing.request "GET" "/users/7")
  = Routing.Matched "user_by_id" {[ "id" := Routing.VInteger 7 ]}.
Proof.
  destruct (bind_most_specific Routing.sample_codec) as [Hgen _].
  apply (Hgen [Routing.user_by_id; Routing.user_by_name; Routing.files]
           (Routing.request "GET" "/users/7")
           {| Routing.segs := ["users"; "7"]; Routing.trailing := false |}
           Routing.user_by_id).
  - reflexivity.
  - set_solver.
  - vm_compute. reflexivity.
  - intros r2 p2 Hin Hfull.
    apply elem_of_cons in Hin as [->|Hin]; [by left|].
    apply elem_of_cons in Hin as [->|Hin]; [by right|].
    apply list_elem_of_singleton in Hin as ->.
    vm_compute in Hfull. discriminate.
  - symmetry. apply (Permutation_cons_append [_; _]).
Defined.

Section RoutingOutcomes.

Import Routing.
Variable F : FloatCodec.

Lemma try_rule_wrong_method (a : BindArgs) (p : path) (r : Rule) :
  try_rule F a p r = WrongMethod → method a ∉ methods r.
Proof.
  unfold try_rule. destruct (host_ok _ _); [|done].
  destruct (match_segments _ _ _); [|done].
  destruct (Bool.eqb _ _); [|done].
  case_bool_decide; done.
Qed.

(** What a scan that meets no full match returns, by outcome. *)
Lemma scan_no_full (a : BindArgs) (p : path) (l : list Rule) :
  (∀ r params, r ∈ l → try_rule F a p r ≠ Full params) →
  ∀ al rd,
    match scan F a p l al rd with
    | Matched _ _ => False
    | MethodNotAllowed ms =>
        (is_Some al ∨ ∃ r, r ∈ l ∧ try_rule F a p r = WrongMethod) ∧
        ∀ x, x ∈ ms ↔
             x ∈ default ∅ al ∨
             ∃ r, r ∈ l ∧ try_rule F a p r = WrongMethod ∧ x ∈ methods r
    | RedirectRequired t =>
        al = None ∧ (∀ r, r ∈ l → try_rule F a p r ≠ WrongMethod) ∧
        (rd = Some t ∨
         (rd = None ∧ t = corrected p ∧
          ∃ r, r ∈ l ∧ try_rule F a p r = WrongSlash))
    | NotFound =>
        al = None ∧ rd = None ∧ ∀ r, r ∈ l → try_rule F a p r = NoMatch
    end.
Proof.
  induction l as [|x l IH]; intros Hno al rd.
  - simpl. destruct al as [ms|], rd as [t|]; simpl.
    + split; [left; eauto|]. intros y. split; [auto|].
      intros [?|(r & Hr & _)]; [done|]. by apply elem_of_nil in Hr.
    + split; [left; eauto|]. intros y. split; [auto|].
      intros [?|(r & Hr & _)]; [done|]. by apply elem_of_nil in Hr.
    + repeat split; [|by left]. intros r Hr. by apply elem_of_nil in Hr.
    + repeat split. intros r Hr. by apply elem_of_nil in Hr.
  - assert (Hno' : ∀ r params, r ∈ l → try_rule F a p r ≠ Full params).
    { intros r ps Hr. apply Hno. by right. }
    simpl. destruct (try_rule F a p x) as [px| | |] eqn:Hx.
    + exfalso. eapply (Hno x px); [by left|done].
    + specialize (IH Hno' (Some (default ∅ al ∪ methods x)) rd).
      destruct (scan F a p l _ rd) as [| ms | t |]; try done.
      * destruct IH as [_ IH]. split.
        { right. exists x. split; [by left|done]. }
        intros y. rewrite IH. simpl. rewrite elem_of_union. split.
        -- intros [[?|?]|(r & Hr & Hw & Hy)]; [by left| |].
           ++ right. exists x. split; [by left|done].
           ++ right. exists r. split; [by right|done].
        -- intros [?|(r & Hr & Hw & Hy)]; [by left; left|].
           apply elem_of_cons in Hr as [->|Hr]; [by left; right|].
           right. eauto.
      * by destruct IH as [? _].
      * by destruct IH as [? _].
    + specialize (IH Hno' al
        (match rd with Some t => Some t | None => Some (corrected p) end)).
      destruct (scan F a p l al _) as [| ms | t |]; try done.
      * destruct IH as [Hsome IH]. split.
        { destruct Hsome as [?|(r & Hr & Hw)]; [by left|].
          right. exists r. split; [by right|done]. }
        intros y. rewrite IH. split.
        -- intros [?|(r & Hr & Hw & Hy)]; [by left|].
           right. exists r. split; [by right|done].
        -- intros [?|(r & Hr & Hw & Hy)]; [by left|].
           apply elem_of_cons in Hr as [->|Hr]; [congruence|]. right. eauto.
      * destruct IH as (-> & Hnw & Ht). split; [done|]. split.
        { intros r Hr. apply elem_of_cons in Hr as [->|Hr]; [congruence|].
          by apply Hnw. }
        destruct rd as [t'|].
        -- destruct Ht as [[= ->]|(? & _)]; [by left|done].
        -- right. split; [done|].
           destruct Ht as [[= ->]|(_ & -> & _)];
             (split; [done|]; exists x; split; [by left|done]).
      * destruct IH as (_ & Hrd & _). by destruct rd.
    + specialize (IH Hno' al rd).
      destruct (scan F a p l al rd) as [| ms | t |]; try done.
      * destruct IH as [Hsome IH]. split.
        { destruct Hsome as [?|(r & Hr & Hw)]; [by left|].
          right. exists r. split; [by right|done]. }
        intros y. rewrite IH. split.
        -- intros [?|(r & Hr & Hw & Hy)]; [by left|].
           right. exists r. split; [by right|done].
        -- intros [?|(r & Hr & Hw & Hy)]; [by left|].
           apply elem_of_cons in Hr as [->|Hr]; [congruence|]. right. eauto.
      * destruct IH as (-> & Hnw & Ht). split; [done|]. split.
        { intros r Hr. apply elem_of_cons in Hr as [->|Hr]; [congruence|].
          by apply Hnw. }
        destruct Ht as [?|(? & ? & r & Hr & Hw)]; [by left|].
        right. repeat split; [done..|]. exists r. split; [by right|done].
      * destruct IH as (-> & -> & Hall). repeat split.
        intros r Hr. apply elem_of_cons in Hr as [->|Hr]; [done|]. by apply Hall.
Qed.

Lemma scan_full (a : BindArgs) (p : path) (l : list Rule) :
  (∃ r params, r ∈ l ∧ try_rule F a p r = Full params) →
  ∀ al rd, ∃ r params,
    r ∈ l ∧ try_rule F a p r = Full params ∧
    scan F a p l al rd = Matched (endpoint r) params.
Proof.
  induction l as [|x l IH]; intros (r & ps & Hr & Hfull) al rd.
  - by apply elem_of_nil in Hr.
  - simpl. destruct (try_rule F a p x) as [px| | |] eqn:Hx.
    + exists x, px. split; [by left|done].
    + apply elem_of_cons in Hr as [->|Hr]; [congruence|].
      destruct (IH (ex_intro _ r (ex_intro _ ps (conj Hr Hfull)))
                  (Some (default ∅ al ∪ methods x)) rd) as (r' & ps' & ? & ? & ?).
      exists r', ps'. split; [by right|done].
    + apply elem_of_cons in Hr as [->|Hr]; [congruence|].
      destruct (IH (ex_intro _ r (ex_intro _ ps (conj Hr Hfull))) al
                  (match rd with Some t => Some t | None => Some (corrected p) end))
        as (r' & ps' & ? & ? & ?).
      exists r', ps'. split; [by right|done].
    + apply elem_of_cons in Hr as [->|Hr]; [congruence|].
      destruct (IH (ex_intro _ r (ex_intro _ ps (conj Hr Hfull))) al rd)
        as (r' & ps' & ? & ? & ?).
      exists r', ps'. split; [by right|done].
Qed.

(** C7. [bind] returns one of four outcomes, decided by how the
    registered rules fare against the request: Matched when some rule
    matches in full; otherwise MethodNotAllowed, with the methods of the
    rules that match host and path, when there is such a rule; otherwise
    RedirectRequired, with the trailing slash corrected, when some rule
    matches but for the trailing slash; otherwise NotFound.  /missing is
    NotFound, POST /item against a GET-only rule is MethodNotAllowed with
    allowed = {GET}, and /shop against the rule /shop/ redirects to
    /shop/. *)
Theorem bind_classification :
  (∀ (rs : list Rule) (a : BindArgs) (p : path),
     parse_path (path_info a) = Some p →
     ((∃ r params, r ∈ rs ∧ try_rule F a p r = Full params) →
        ∃ r params, r ∈ rs ∧ try_rule F a p r = Full params ∧
          bind F {| rules := rs |} a = Matched (endpoint r) params) ∧
     ((∀ r params, r ∈ rs → try_rule F a p r ≠ Full params) →
      (∃ r, r ∈ rs ∧ try_rule F a p r = WrongMethod) →
        ∃ allowed, bind F {| rules := rs |} a = MethodNotAllowed allowed ∧
          (method a ∉ allowed) ∧
          (∀ x, x ∈ allowed ↔
                ∃ r, r ∈ rs ∧ try_rule F a p r = WrongMethod ∧ x ∈ methods r)) ∧
     ((∀ r, r ∈ rs → try_rule F a p r = WrongSlash ∨ try_rule F a p r = NoMatch) →
      (∃ r, r ∈ rs ∧ try_rule F a p r = WrongSlash) →
        bind F {| rules := rs |} a = RedirectRequired (corrected p)) ∧
     ((∀ r, r ∈ rs → try_rule F a p r = NoMatch) →
        bind F {| rules := rs |} a = NotFound)) ∧
  (∀ (rs : list Rule) (a : BindArgs),
     parse_path (path_info a) = None → bind F {| rules := rs |} a = NotFound) ∧
  bind F {| rules := [item; shop] |} (request "GET" "/missing") = NotFound ∧
  bind F {| rules := [item; shop] |} (request "POST" "/item")
    = MethodNotAllowed {[ "GET" ]} ∧
  bind F {| rules := [item; shop] |} (request "GET" "/shop")
    = RedirectRequired "/shop/".
Proof.
  split; [|split; [|repeat split; vm_compute; reflexivity]].
  - intros rs a p Hp. unfold bind. rewrite Hp. simpl.
    assert (Hmem : ∀ r, r ∈ sort_rules rs ↔ r ∈ rs).
    { intros r. by rewrite sort_rules_perm. }
    split; [|split; [|split]].
    + intros (r & ps & Hr & Hfull).
      destruct (scan_full a p (sort_rules rs)) with (al := @None (gset string))
        (rd := @None string) as (r' & ps' & Hr' & Hf' & Hs).
      { exists r, ps. by rewrite Hmem. }
      exists r', ps'. by rewrite <- Hmem.
    + intros Hno (r & Hr & Hw).
      pose proof (scan_no_full a p (sort_rules rs)) as H.
      specialize (H (λ r ps Hin, Hno r ps (proj1 (Hmem r) Hin)) None None).
      destruct (scan F a p (sort_rules rs) None None) as [|ms|t|]; try done.
      * destruct H as [_ H]. exists ms. split; [done|].
        assert (Hms : ∀ x, x ∈ ms ↔
          ∃ r, r ∈ rs ∧ try_rule F a p r = WrongMethod ∧ x ∈ methods r).
        { intros x. rewrite H. simpl. split.
          - intros [?|(r' & ? & ? & ?)]; [set_solver|].
            exists r'. by rewrite <- Hmem.
          - intros (r' & ? & ? & ?). right. exists r'. by rewrite Hmem. }
        split; [|done]. rewrite Hms. intros (r' & _ & Hw' & Hin).
        by apply try_rule_wrong_method in Hw'.
      * destruct H as (_ & Hnw & _). exfalso.
        apply (Hnw r); [by rewrite Hmem|done].
      * destruct H as (_ & _ & Hall).
        rewrite Hall in Hw by (by rewrite Hmem). done.
    + intros Hall (r & Hr & Hw).
      pose proof (scan_no_full a p (sort_rules rs)) as H.
      assert (Hno : ∀ r ps, r ∈ sort_rules rs → try_rule F a p r ≠ Full ps).
      { intros r' ps Hin. apply Hmem in Hin.
        destruct (Hall r' Hin) as [-> | ->]; done. }
      specialize (H Hno None None).
      destruct (scan F a p (sort_rules rs) None None) as [|ms|t|]; try done.
      * destruct H as [[[? [=]]|(r' & Hin & Hw')] _]. apply Hmem in Hin.
        destruct (Hall r' Hin); congruence.
      * destruct H as (_ & _ & [[=]|(_ & -> & _)]). done.
      * destruct H as (_ & _ & Hnm).
        rewrite Hnm in Hw by (by rewrite Hmem). done.
    + intros Hall.
      pose proof (scan_no_full a p (sort_rules rs)) as H.
      assert (Hno : ∀ r ps, r ∈ sort_rules rs → try_rule F a p r ≠ Full ps).
      { intros r' ps Hin. apply Hmem in Hin. by rewrite (Hall r' Hin). }
      specialize (H Hno None None).
      destruct (scan F a p (sort_rules rs) None None) as [|ms|t|]; try done.
      * destruct H as [[[? [=]]|(r' & Hin & Hw')] _]. apply Hmem in Hin.
        rewrite (Hall r' Hin) in Hw'. done.
      * destruct H as (_ & _ & [[=]|(_ & _ & r' & Hin & Hw')]).
        apply Hmem in Hin. rewrite (Hall r' Hin) in Hw'. done.
  - intros rs a Hp. unfold bind. by rewrite Hp.
Qed.

End RoutingOutcomes.

Lemma bind_classification_witness :
  ∃ allowed,
    Routing.bind Routing.sample_codec
      {| Routing.rules := [Routing.item; Routing.shop] |}
      (Routing.request "POST" "/item") = Routing.MethodNotAllowed allowed ∧
    "POST" ∉ allowed.
Proof.
  destruct (bind_classification Routing.sample_codec) as [Hgen _].
  destruct (Hgen [Routing.item; Routing.shop] (Routing.request "POST" "/item")
              {| Routing.segs := ["item"]; Routing.trailing := false |} eq_refl)
    as (_ & H405 & _).
  destruct H405 as (allowed & Hbind & Hnot & _).
  - intros r ps Hin.
    apply elem_of_cons in Hin as [->|Hin]; [vm_compute; discriminate|].
    apply list_elem_of_singleton in Hin as ->. vm_compute. discriminate.
  - exists Routing.item. split; [by left|]. vm_compute. reflexivity.
  - exists allowed. split; [exact Hbind | exact Hnot].
Defined.

(** *** Building a URL and binding it again *)

Section PathText.

Import Routing.

Lemma split_slash_nonnil (s : string) : split_slash s ≠ [].
Proof. destruct s as [|c s]; simpl; [done|]. destruct (Ascii.eqb c slash); [done|]. by destruct (split_slash s). Qed.

Lemma split_slash_no_slash (s : string) :
  has_slash s = false → split_slash s = [s].
Proof.
  induction s as [|c s IH]; simpl; [done|].
  destruct (Ascii.eqb c slash); [done|]. simpl. intros H. by rewrite IH.
Qed.

Lemma split_slash_app (s t : string) :
  split_slash (s ++ "/" ++ t) = (split_slash s ++ split_slash t)%list.
Proof.
  induction s as [|c s IH]; simpl.
  - done.
  - destruct (Ascii.eqb c slash) eqn:Hc.
    + by rewrite IH.
    + rewrite IH. pose proof (split_slash_nonnil s).
      by destruct (split_slash s).
Qed.

Lemma join_split (s : string) : join_slash (split_slash s) = s.
Proof.
  induction s as [|c s IH]; simpl; [done|].
  destruct (Ascii.eqb c slash) eqn:Hc.
  - apply Ascii.eqb_eq in Hc as ->. unfold join_slash in *. simpl.
    pose proof (split_slash_nonnil s). destruct (split_slash s) eqn:E; [done|].
    simpl in *. by rewrite IH.
  - unfold join_slash in *. pose proof (split_slash_nonnil s).
    destruct (split_slash s) as [|h t] eqn:E; [done|].
    simpl in *. destruct t; simpl in *; by rewrite <- IH.
Qed.

Lemma split_join (l : list string) :
  l ≠ [] → split_slash (join_slash l) = flat_map split_slash l.
Proof.
  induction l as [|x l IH]; [done|]. intros _. unfold join_slash in *. simpl.
  destruct l as [|y l].
  - simpl. by rewrite app_nil_r.
  - change (String.concat "/" (y :: l)) with (String.concat "/" (y :: l)).
    rewrite split_slash_app. f_equal. by apply IH.
Qed.

Lemma parse_render (pieces : list string) (t : bool) :
  (pieces = [] → t = true) →
  Forall piece_ok pieces →
  parse_path (render_path {| segs := pieces; trailing := t |})
  = Some {| segs := flat_map split_slash pieces; trailing := t |}.
Proof.
  intros Hroot Hok. unfold render_path, parse_path. cbn [segs trailing].
  change ("/" ++ ?x) with (String slash x).
  destruct t.
  - rewrite Ascii.eqb_refl. rewrite split_join by (by destruct pieces).
    rewrite flat_map_app. change (flat_map split_slash [""]) with [""].
    rewrite last_snoc. by rewrite removelast_last.
  - assert (Hne : pieces ≠ []) by (intros ->; by specialize (Hroot eq_refl)).
    rewrite split_join by done.
    assert (Hall : Forall (λ x, nonempty x = true) (flat_map split_slash pieces)).
    { clear Hne Hroot. induction Hok as [|x l Hx Hl IH]; simpl; [done|].
      apply Forall_app. split; [|done].
      unfold piece_ok in Hx. apply Is_true_true, forallb_True in Hx.
      eapply Forall_impl; [exact Hx|]. intros y Hy. by apply Is_true_true. }
    destruct (last (flat_map split_slash pieces)) as [x|] eqn:Hlast; [|done].
    apply last_Some in Hlast as [l' Hl']. rewrite Hl' in Hall.
    apply Forall_app in Hall as [_ Hx]. apply Forall_inv in Hx.
    rewrite Ascii.eqb_refl. destruct x; [by vm_compute in Hx|]. done.
Qed.

Lemma string_length_app (a b : string) :
  String.length (a ++ b) = String.length a + String.length b.
Proof. induction a as [|c a IH]; simpl; [done|]. by rewrite IH. Qed.

Lemma has_slash_app (a b : string) :
  has_slash (a ++ b) = has_slash a || has_slash b.
Proof.
  induction a as [|c a IH]; simpl; [done|]. rewrite IH. by rewrite orb_assoc.
Qed.

Lemma digits_no_slash (d : Decimal.uint) :
  has_slash (NilEmpty.string_of_uint d) = false.
Proof. induction d; simpl; try done. Qed.

Lemma show_N_no_slash (n : N) : has_slash (show_N n) = false.
Proof. apply digits_no_slash. Qed.

Lemma show_N_nonempty (n : N) : nonempty (show_N n) = true.
Proof.
  unfold show_N. destruct n as [|p]; [done|]. simpl.
  pose proof (DecimalPos.Unsigned.to_uint_nonnil p) as H.
  by destruct (Pos.to_uint p).
Qed.

Lemma zeros_length (k : nat) : String.length (zeros k) = k.
Proof. induction k; simpl; [done|]. by rewrite IHk. Qed.

Lemma zeros_no_slash (k : nat) : has_slash (zeros k) = false.
Proof. induction k; simpl; done. Qed.

Lemma read_digits_zeros (k : nat) (s : string) (d : Decimal.uint) :
  NilEmpty.uint_of_string s = Some d →
  ∃ d', NilEmpty.uint_of_string (zeros k ++ s) = Some d' ∧
        N.of_uint d' = N.of_uint d.
Proof.
  intros Hs. induction k as [|k (d' & Hd' & Heq)]; simpl.
  - eauto.
  - rewrite Hd'. simpl. eauto.
Qed.

Lemma read_N_show_fixed (digits : option nat) (n : N) (raw : string) :
  show_fixed digits n = Some raw →
  read_N raw = Some n ∧ digits_ok digits raw = true ∧
  nonempty raw = true ∧ has_slash raw = false.
Proof.
  unfold show_fixed. destruct digits as [k|].
  - destruct (String.length (show_N n) <=? k)%nat eqn:Hle; [|done].
    intros [= <-]. apply Nat.leb_le in Hle.
    destruct (read_digits_zeros (k - String.length (show_N n)) (show_N n)
                (N.to_uint n)) as (d' & Hd' & Heq).
    { apply NilEmpty.usu. }
    assert (Hne : nonempty (zeros (k - String.length (show_N n)) ++ show_N n) = true).
    { pose proof (show_N_nonempty n) as H.
      destruct (zeros _); [done|]. done. }
    split; [|split; [|split]].
    + unfold read_N. rewrite Hne, Hd', Heq.
      by rewrite DecimalN.Unsigned.of_to.
    + simpl. rewrite string_length_app, zeros_length. apply Nat.eqb_eq. lia.
    + done.
    + by rewrite has_slash_app, zeros_no_slash, show_N_no_slash.
  - intros [= <-]. split; [|split; [|split]].
    + unfold read_N. rewrite show_N_nonempty. unfold show_N.
      by rewrite NilEmpty.usu, DecimalN.Unsigned.of_to.
    + done.
    + apply show_N_nonempty.
    + apply show_N_no_slash.
Qed.

Lemma has_slash_chars (s : string) :
  has_slash s = existsb (fun c => Ascii.eqb c slash) (String.list_ascii_of_string s).
Proof. induction s as [|c s IH]; simpl; [done|]. by rewrite IH. Qed.

Lemma is_uuid_single (s : string) :
  is_uuid s = true → nonempty s = true ∧ has_slash s = false.
Proof.
  unfold is_uuid. intros H. apply andb_true_iff in H as [Hlen Hall].
  apply Nat.eqb_eq in Hlen. split.
  - by destruct s.
  - rewrite has_slash_chars.
    apply not_true_is_false. intros Hex.
    apply existsb_exists in Hex as (c & Hc & Hslash).
    apply Ascii.eqb_eq in Hslash as ->.
    apply list_elem_of_In, list_elem_of_lookup in Hc as [i Hi].
    pose proof (lookup_lt_Some _ _ _ Hi) as Hlt.
    rewrite forallb_forall in Hall.
    specialize (Hall (i, slash)). simpl in Hall.
    assert (Hin : In (i, slash) (zip (seq 0 36) (String.list_ascii_of_string s))).
    { apply list_elem_of_In, list_elem_of_lookup. exists i.
      apply lookup_zip_with_Some. exists i, slash. split; [done|]. split; [|done].
      apply lookup_seq. lia. }
    specialize (Hall Hin).
    by destruct ((i =? 8)%nat || (i =? 13)%nat || (i =? 18)%nat || (i =? 23)%nat).
Qed.

End PathText.

(** ** More on the application object *)

Section AppMoreFacts.

Import App AppMore.
Variable E : Env.

(** With debug off the wrapper is the wrapped method: nothing is raised,
    and [_got_first_request] is not even read (it may be unset). *)
Theorem setupmethod_debug_off {A R} (f : method A R) (self : obj) (args : A)
    (d : val) :
  getattr E self "debug" = ret d →
  truthy d = false →
  setupmethod E f self args = f self args.
Proof.
  intros Hd Hf. unfold setupmethod, wrapper_func, setup_guard.
  rewrite Hd. simpl. rewrite Hf. simpl. by rewrite Hf.
Qed.

(** Wrapping twice is wrapping once. *)
Theorem setupmethod_twice {A R} (f : method A R) (self : obj) (args : A) :
  setupmethod E (setupmethod E f) self args = setupmethod E f self args.
Proof.
  unfold setupmethod, wrapper_func.
  destruct (setup_guard E self) as [e|c] eqn:Hc; simpl; [done|].
  destruct (truthy c) eqn:Hb; done.
Qed.

Lemma init_tail_logger (self app : obj) :
  init_tail E self = ret app → app !! "_logger" = Some VNone.
Proof.
  unfold init_tail. intros H.
  apply bind_ret_inv in H as (n & _ & H). injection H as <-.
  rewrite !lookup_insert_ne by done. by rewrite lookup_insert_eq.
Qed.

Variable create_logger : obj → result val.

(** On a freshly constructed application the first access to [logger]
    creates the logger with [create_logger] and stores it. *)
Theorem logger_first_access (a : init_args) (app : obj) (lg : val) :
  init E a = ret app →
  create_logger app = ret lg →
  logger E create_logger app = ret (lg, <["_logger" := lg]> app).
Proof.
  intros Hinit Hlg.
  apply init_inv in Hinit as (? & ? & ? & ? & s_static & _ & _ & _ & _ & Ht).
  apply init_tail_logger in Ht.
  unfold logger. rewrite (getattr_instance E app "_logger" VNone Ht). simpl.
  rewrite Hlg. simpl.
  rewrite (getattr_instance E _ "_logger" lg) by apply lookup_insert_eq. done.
Qed.

(** Once [logger] has returned a logger, every later access returns that
    same logger, creates nothing and leaves the instance as it is; and an
    access never touches another attribute than [_logger]. *)
Theorem logger_cached (self self' : obj) (l : val) :
  logger E create_logger self = ret (l, self') →
  is_none l = false →
  logger E create_logger self' = ret (l, self') ∧
  ∀ k, k ≠ "_logger" → self' !! k = self !! k.
Proof.
  unfold logger. intros H Hl.
  apply bind_ret_inv in H as (l0 & Hl0 & H).
  apply bind_ret_inv in H as (s1 & Hs1 & H).
  apply bind_ret_inv in H as (l1 & Hl1 & H).
  injection H as -> ->. split.
  - rewrite Hl1. simpl. rewrite Hl. simpl. by rewrite Hl1.
  - intros k Hk. destruct (is_none l0).
    + apply bind_ret_inv in Hs1 as (lg & _ & Hs1). injection Hs1 as <-.
      by rewrite lookup_insert_ne.
    + by injection Hs1 as <-.
Qed.

End AppMoreFacts.

Lemma setupmethod_debug_off_witness :
  let self := delete "_got_first_request" (App.sample_app false) in
  App.setupmethod (App.sample_env false) (App.sample_register "hooks") self (VStr "h")
  = App.sample_register "hooks" self (VStr "h").
Proof.
  intros self.
  apply (setupmethod_debug_off (App.sample_env false) _ self (VStr "h") (VBool false));
    vm_compute; reflexivity.
Defined.

Lemma logger_first_access_witness :
  ∃ lg, AppMore.logger (App.sample_env true) AppMore.sample_create_logger
          (App.sample_app true)
        = ret (lg, <["_logger" := lg]> (App.sample_app true)).
Proof.
  eexists.
  apply (logger_first_access (App.sample_env true) AppMore.sample_create_logger
           (App.default_args "shop")).
  - apply sample_app_constructed.
  - vm_compute. reflexivity.
Defined.

Lemma logger_cached_witness :
  let E := App.sample_env true in
  let lg := VObj "Logger" (<["name" := VStr "shop"]> ∅) in
  let self : gmap string val := <["name" := VStr "shop"]> (<["_logger" := VNone]> ∅) in
  let self' := <["_logger" := lg]> self in
  AppMore.logger E AppMore.sample_create_logger self' = ret (lg, self').
Proof.
  intros E lg self self'.
  apply (logger_cached E AppMore.sample_create_logger self self' lg).
  - vm_compute. reflexivity.
  - reflexivity.
Defined.

(** *** What the constructor leaves on the instance *)

Section AppInitFacts.

Import App AppMore.
Variable E : Env.

Lemma getattr_same (self self' : obj) (k : string) :
  self' !! k = self !! k → getattr E self' k = getattr E self k.
Proof. intros H. unfold getattr. by rewrite H. Qed.

Lemma set_converter_attr (self self' : obj) (name k : string) (cls : val) :
  k ≠ "converters" →
  set_converter E self name cls = ret self' →
  url_map_attr self' k = url_map_attr self k.
Proof.
  intros Hk. unfold set_converter. intros H.
  apply bind_ret_inv in H as (m & Hm & H).
  apply bind_ret_inv in H as (c & Hc & H).
  apply bind_ret_inv in H as (c' & Hc' & H).
  apply bind_ret_inv in H as (m' & Hm' & H).
  apply getattr_url_map in Hm. injection H as <-.
  destruct m as [| | | | | | |mc attrs]; try discriminate.
  injection Hm' as <-. unfold url_map_attr.
  rewrite Hm, lookup_insert_eq. by rewrite lookup_insert_ne.
Qed.

Lemma set_url_map_attr_lookup (self self' : obj) (k j : string) (v : val) :
  set_url_map_attr E self k v = ret self' →
  url_map_attr self' j = if decide (k = j) then Some v else url_map_attr self j.
Proof.
  intros H. apply set_url_map_attr_inv in H as (cls & attrs & Hm & ->).
  unfold url_map_attr. rewrite Hm, lookup_insert_eq.
  case_decide as Hkj.
  - subst. by rewrite lookup_insert_eq.
  - by rewrite lookup_insert_ne.
Qed.

Lemma init_url_map_flags (self self' : obj) (a : init_args) :
  init_url_map E self a = ret self' →
  url_map_attr self' "host_matching" = Some (VBool (host_matching a)) ∧
  url_map_attr self' "subdomain_matching" = Some (VBool (subdomain_matching a)).
Proof.
  unfold init_url_map. intros H.
  apply bind_ret_inv in H as (s1 & H1 & H).
  apply bind_ret_inv in H as (s2 & H2 & H).
  apply bind_ret_inv in H as (s3 & H3 & H).
  apply bind_ret_inv in H as (s4 & H4 & H).
  apply bind_ret_inv in H as (s5 & H5 & H).
  apply bind_ret_inv in H as (s6 & H6 & H).
  apply bind_ret_inv in H as (s7 & H7 & H).
  apply bind_ret_inv in H as (s8 & H8 & H9).
  assert (Hk : ∀ k, k ≠ "converters" → url_map_attr self' k = url_map_attr s2 k).
  { intros k Hk.
    rewrite (set_converter_attr _ _ _ k _ Hk H9), (set_converter_attr _ _ _ k _ Hk H8),
      (set_converter_attr _ _ _ k _ Hk H7), (set_converter_attr _ _ _ k _ Hk H6),
      (set_converter_attr _ _ _ k _ Hk H5), (set_converter_attr _ _ _ k _ Hk H4),
      (set_converter_attr _ _ _ k _ Hk H3). done. }
  rewrite !Hk by done.
  rewrite !(set_url_map_attr_lookup _ _ _ _ _ H2).
  rewrite !(set_url_map_attr_lookup _ _ _ _ _ H1).
  repeat case_decide; done.
Qed.

(** The stages of a construction that returns, with the configuration. *)
Lemma init_stages (a : init_args) (app : obj) :
  init E a = ret app →
  ∃ self0 ip config s_map s_static,
    let s := <["instance_path" := VStr ip]> (init_static_attrs self0 a) in
    PackageBoundObject_init E ∅ (import_name a) (template_folder a)
      (root_path a) = ret self0 ∧
    init_instance_path E (init_static_attrs self0 a) a = ret ip ∧
    make_config E s (instance_relative_config a) = ret config ∧
    init_url_map E
      (<["_error_handlers" := VDict ∅]>
       (<["_view_functions" := VDict ∅]> (<["config" := config]> s))) a
      = ret s_map ∧
    init_static_route E (init_registries E s_map) a = ret s_static ∧
    init_tail E s_static = ret app.
Proof.
  unfold init. intros H.
  apply bind_ret_inv in H as (self0 & H0 & H).
  apply bind_ret_inv in H as (ip & Hip & H).
  apply bind_ret_inv in H as (config & Hc & H).
  apply bind_ret_inv in H as (s_map & Hm & H).
  apply bind_ret_inv in H as (s_static & Hs & H).
  exists self0, ip, config, s_map, s_static. simpl. done.
Qed.

(** An attribute read on the finished application, for a key that only
    the stages before the configuration assign. *)
Lemma init_early_attr (a : init_args) (app self0 : obj) (ip k : string) (s_map s_static : obj) (config : val) :
  preserves k (add_url_rule E) →
  k = "instance_path" ∨ k = "root_path" ∨ k = "static_url_path"
    ∨ k = "static_folder" ∨ k = "import_name" →
  init_url_map E
    (<["_error_handlers" := VDict ∅]>
     (<["_view_functions" := VDict ∅]>
     (<["config" := config]>
     (<["instance_path" := VStr ip]> (init_static_attrs self0 a))))) a
    = ret s_map →
  init_static_route E (init_registries E s_map) a = ret s_static →
  init_tail E s_static = ret app →
  app !! k = (<["instance_path" := VStr ip]> (init_static_attrs self0 a)) !! k.
Proof.
  intros Hp Hk Hm Hs Ht.
  apply init_url_map_inv in Hm as (d0 & _ & _ & Hf1).
  apply init_tail_inv in Ht as [_ Hf2].
  assert (Hne : k ∉ ["config"; "_view_functions"; "_error_handlers"; "url_map";
       "blueprints"; "cli"; "_before_request_funcs"; "_after_request_funcs";
       "_teardown_request_funcs"; "_teardown_appcontext_funcs";
       "_template_context_processors"; "_shell_context_processors";
       "url_value_preprocessors"; "url_default_functions"; "extensions";
       "_got_first_request"; "_before_first_request_functions";
       "_logger"; "name"; "debug"; "_cli_commands"]).
  { destruct Hk as [->|[->|[->|[->| ->]]]];
      rewrite !not_elem_of_cons; repeat split; try done; apply not_elem_of_nil. }
  rewrite !not_elem_of_cons in Hne.
  destruct Hne as (?&?&?&?&?&?&?&?&?&?&?&?&?&?&?&?&?&?&?&?&?&_).
  rewrite Hf2 by done. rewrite (init_static_route_frame _ _ _ _ _ Hp Hs).
  unfold init_registries. rewrite !lookup_insert_ne by done.
  rewrite Hf1 by done. rewrite !lookup_insert_ne by done. done.
Qed.

Lemma registers_only_config : registers_only (add_url_rule E) →
  preserves "config" (add_url_rule E) ∧ preserves "instance_path" (add_url_rule E)
  ∧ preserves "root_path" (add_url_rule E).
Proof. intros H. repeat split; by apply H. Qed.

Lemma init_default_config (a : init_args) (app self0 : obj) (ip : string)
    (s_map s_static : obj) (config : val) :
  preserves "default_config" (add_url_rule E) →
  init_url_map E
    (<["_error_handlers" := VDict ∅]>
     (<["_view_functions" := VDict ∅]>
     (<["config" := config]>
     (<["instance_path" := VStr ip]> (init_static_attrs self0 a))))) a
    = ret s_map →
  init_static_route E (init_registries E s_map) a = ret s_static →
  init_tail E s_static = ret app →
  app !! "default_config"
  = (<["instance_path" := VStr ip]> (init_static_attrs self0 a)) !! "default_config".
Proof.
  intros Hp Hm Hs Ht.
  apply init_url_map_inv in Hm as (d0 & _ & _ & Hf1).
  apply init_tail_inv in Ht as [_ Hf2].
  rewrite Hf2 by done. rewrite (init_static_route_frame _ _ _ _ _ Hp Hs).
  unfold init_registries. rewrite !lookup_insert_ne by done.
  rewrite Hf1 by done. rewrite !lookup_insert_ne by done. done.
Qed.

(** The configuration is [Config(root, self.default_config)], rooted at
    the instance path when [instance_relative_config] is set, and at
    [root_path] otherwise. *)
Theorem init_config_root (a : init_args) (app : obj) :
  registers_only (add_url_rule E) →
  init E a = ret app →
  ∃ root defaults,
    app !! "config" = Some (Config_new E root defaults) ∧
    getattr E app (if instance_relative_config a then "instance_path"
                   else "root_path") = ret root ∧
    getattr E app "default_config" = ret defaults.
Proof.
  intros Hreg H.
  destruct (registers_only_config Hreg) as (Hpc & Hpi & Hpr).
  assert (Hpd : preserves "default_config" (add_url_rule E)) by (by apply Hreg).
  apply init_stages in H as (self0 & ip & config & s_map & s_static
                             & H0 & Hip & Hc & Hm & Hs & Ht).
  simpl in *.
  set (s := <["instance_path" := VStr ip]> (init_static_attrs self0 a)) in *.
  assert (Hconfig : app !! "config" = Some config).
  { pose proof Hm as Hm'. apply init_url_map_inv in Hm' as (d0 & _ & _ & Hf1).
    pose proof Ht as Ht'. apply init_tail_inv in Ht' as [_ Hf2].
    rewrite Hf2 by done. rewrite (init_static_route_frame _ _ _ _ _ Hpc Hs).
    unfold init_registries. rewrite !lookup_insert_ne by done.
    rewrite Hf1 by done. rewrite !lookup_insert_ne by done.
    by rewrite lookup_insert_eq. }
  unfold make_config in Hc.
  apply bind_ret_inv in Hc as (rp & Hrp & Hc).
  apply bind_ret_inv in Hc as (root & Hroot & Hc).
  apply bind_ret_inv in Hc as (defaults & Hdef & Hc). injection Hc as <-.
  exists root, defaults. split; [done|]. split.
  - destruct (instance_relative_config a).
    + rewrite <- Hroot. apply getattr_same.
      eapply init_early_attr; eauto.
    + injection Hroot as <-. rewrite <- Hrp. apply getattr_same.
      eapply init_early_attr; eauto.
  - rewrite <- Hdef. apply getattr_same.
    eapply init_default_config; eauto.
Qed.

(** The URL map of the finished application carries the two matching
    flags given to the constructor. *)
Theorem init_matching_flags (a : init_args) (app : obj) :
  preserves_url_map_attr "host_matching" (add_url_rule E) →
  preserves_url_map_attr "subdomain_matching" (add_url_rule E) →
  init E a = ret app →
  url_map_attr app "host_matching" = Some (VBool (host_matching a)) ∧
  url_map_attr app "subdomain_matching" = Some (VBool (subdomain_matching a)).
Proof.
  intros Hh Hsd H.
  apply init_stages in H as (self0 & ip & config & s_map & s_static
                             & _ & _ & _ & Hm & Hs & Ht).
  apply init_url_map_flags in Hm as [Fh Fs].
  apply init_tail_inv in Ht as [_ Hf2].
  assert (Hattr : ∀ k, preserves_url_map_attr k (add_url_rule E) →
                       url_map_attr app k = url_map_attr s_map k).
  { intros k Hk. unfold url_map_attr at 1. rewrite Hf2 by done.
    change (url_map_attr s_static k = url_map_attr s_map k).
    transitivity (url_map_attr (init_registries E s_map) k).
    - unfold init_static_route in Hs.
      apply bind_ret_inv in Hs as (hsf & _ & Hs).
      destruct (truthy hsf); [|by injection Hs as <-].
      apply bind_ret_inv in Hs as (sup & _ & Hs).
      apply bind_ret_inv in Hs as (rule & _ & Hs).
      apply bind_ret_inv in Hs as ([r s'] & Hr & Hs).
      injection Hs as <-. by eapply Hk.
    - unfold url_map_attr. by rewrite init_registries_lookup by auto. }
  by rewrite !Hattr.
Qed.

(** A freshly constructed application has nothing registered: no
    request hooks, teardown functions, error handlers, blueprints,
    extensions, URL processors or first-request functions. *)
Theorem init_nothing_registered (a : init_args) (app : obj) :
  registers_only (add_url_rule E) →
  init E a = ret app →
  app !! "_error_handlers" = Some (VDict ∅) ∧
  app !! "blueprints" = Some (VDict ∅) ∧
  app !! "_before_request_funcs" = Some (VDict ∅) ∧
  app !! "_after_request_funcs" = Some (VDict ∅) ∧
  app !! "_teardown_request_funcs" = Some (VDict ∅) ∧
  app !! "_teardown_appcontext_funcs" = Some (VList []) ∧
  app !! "_template_context_processors" = Some (VDict ∅) ∧
  app !! "_shell_context_processors" = Some (VList []) ∧
  app !! "url_value_preprocessors" = Some (VDict ∅) ∧
  app !! "url_default_functions" = Some (VDict ∅) ∧
  app !! "extensions" = Some (VDict ∅) ∧
  app !! "_before_first_request_functions" = Some (VList []).
Proof.
  intros Hreg H.
  apply init_stages in H as (self0 & ip & config & s_map & s_static
                             & _ & _ & _ & Hm & Hs & Ht).
  apply init_url_map_inv in Hm as (d0 & _ & _ & Hf1).
  apply init_tail_inv in Ht as [_ Hf2].
  assert (Hk : ∀ k, k ≠ "url_map" → k ≠ "_view_functions" → k ≠ "_logger" →
                    k ≠ "name" → k ≠ "debug" → k ≠ "_cli_commands" →
                    app !! k = init_registries E s_map !! k).
  { intros k ??????. rewrite Hf2 by done.
    apply (init_static_route_frame E _ _ a k); [by apply Hreg|done]. }
  rewrite !Hk by done. unfold init_registries.
  repeat split;
    repeat (first [ by rewrite lookup_insert_eq
                  | rewrite lookup_insert_ne by done ]).
  rewrite Hf1 by done.
  by rewrite lookup_insert_eq.
Qed.

(** The finished application is named after its import name, and its
    debug flag is what [get_debug_flag] returned. *)
Theorem init_name_and_debug (a : init_args) (app : obj) :
  init E a = ret app →
  ∃ n, app !! "name" = Some n ∧ getattr E app "import_name" = ret n ∧
       app !! "debug" = Some (VBool (get_debug_flag E)).
Proof.
  intros H.
  apply init_stages in H as (self0 & ip & config & s_map & s_static
                             & _ & _ & _ & _ & _ & Ht).
  unfold init_tail in Ht.
  apply bind_ret_inv in Ht as (n & Hn & Ht). injection Ht as <-.
  exists n. split; [|split].
  - rewrite lookup_insert_ne, lookup_insert_ne by done. by rewrite lookup_insert_eq.
  - rewrite <- Hn. apply getattr_same. by rewrite !lookup_insert_ne.
  - rewrite lookup_insert_ne by done. by rewrite lookup_insert_eq.
Qed.

(** When the application has no static folder the constructor does not
    call [add_url_rule]: whatever that method is, the result is the
    same. *)
Theorem init_without_static_folder (a : init_args)
    (f : method (val * val * val * val) val) :
  (∀ self v, has_static_folder E self = ret v → truthy v = false) →
  init (with_add_url_rule E f) a = init E a.
Proof.
  intros Hno. unfold init.
  change (PackageBoundObject_init (with_add_url_rule E f))
    with (PackageBoundObject_init E).
  destruct (PackageBoundObject_init E ∅ (import_name a) (template_folder a)
              (root_path a)) as [e|self0]; [done|]. simpl.
  change (init_instance_path (with_add_url_rule E f))
    with (init_instance_path E).
  destruct (init_instance_path E (init_static_attrs self0 a) a) as [e|ip];
    [done|]. simpl.
  change (make_config (with_add_url_rule E f)) with (make_config E).
  destruct (make_config E _ (instance_relative_config a)) as [e|config];
    [done|]. simpl.
  change (init_url_map (with_add_url_rule E f)) with (init_url_map E).
  destruct (init_url_map E _ a) as [e|s_map]; [done|]. simpl.
  change (init_registries (with_add_url_rule E f)) with (init_registries E).
  change (init_tail (with_add_url_rule E f)) with (init_tail E).
  assert (Hs : init_static_route (with_add_url_rule E f) (init_registries E s_map) a
               = init_static_route E (init_registries E s_map) a).
  { unfold init_static_route.
    change (has_static_folder (with_add_url_rule E f)) with (has_static_folder E).
    destruct (has_static_folder E (init_registries E s_map)) as [e|v] eqn:Hv;
      [done|]. simpl. by rewrite (Hno _ _ Hv). }
  by rewrite Hs.
Qed.

(** With [static_url_path] given and a static folder present, the route
    the constructor registers is that path followed by
    "/<path:filename>", under the endpoint "static", for the host
    [static_host] and the view [send_static_file]; with no static folder
    nothing is registered. *)
Theorem init_static_route_rule (a : init_args) (app : obj) (p : string) :
  static_url_path a = Some p →
  init E a = ret app →
  ∃ s hsf,
    has_static_folder E s = ret hsf ∧
    s !! "_got_first_request" = Some (VBool false) ∧
    if truthy hsf then
      ∃ r s', add_url_rule E s
                (VStr (p ++ "/<path:filename>"), VStr "static",
                 of_opt (static_host a), VMethod "send_static_file")
              = ret (r, s') ∧ init_tail E s' = ret app
    else init_tail E s = ret app.
Proof.
  intros Hp H.
  apply init_stages in H as (self0 & ip & config & s_map & s_static
                             & _ & _ & _ & Hm & Hs & Ht).
  apply init_url_map_inv in Hm as (d0 & _ & _ & Hf1).
  exists (init_registries E s_map).
  unfold init_static_route in Hs.
  apply bind_ret_inv in Hs as (hsf & Hhsf & Hs).
  exists hsf. split; [done|]. split; [apply init_registries_got_first_request|].
  destruct (truthy hsf); [|by injection Hs as <-].
  apply bind_ret_inv in Hs as (sup & Hsup & Hs).
  apply bind_ret_inv in Hs as (rule & Hrule & Hs).
  apply bind_ret_inv in Hs as ([r s'] & Hr & Hs). injection Hs as <-.
  assert (Hsp : init_registries E s_map !! "static_url_path" = Some (VStr p)).
  { unfold init_registries. rewrite !lookup_insert_ne by done.
    rewrite Hf1 by done. rewrite !lookup_insert_ne by done.
    unfold init_static_attrs. rewrite Hp.
    destruct (static_folder a).
    - rewrite lookup_insert_ne by done. by rewrite lookup_insert_eq.
    - by rewrite lookup_insert_eq. }
  rewrite (getattr_instance E _ _ _ Hsp) in Hsup. injection Hsup as <-.
  injection Hrule as <-. eauto.
Qed.

(** The constructor rebinds the seven converter names and no other: a
    name outside them keeps the binding [Map()] came with. *)
Theorem init_other_converters (a : init_args) (app : obj) :
  preserves_converters (add_url_rule E) →
  init E a = ret app →
  ∃ d0 d, map_converters (Map_new E) = Some d0 ∧
          converters_of app = Some d ∧
          ∀ k, k ∉ converter_names → d !! k = d0 !! k.
Proof.
  intros Hp H.
  apply init_stages in H as (self0 & ip & config & s_map & s_static
                             & _ & _ & _ & Hm & Hs & Ht).
  apply init_url_map_inv in Hm as (d0 & Hd & Hc & _).
  apply init_tail_inv in Ht as [_ Hf].
  exists d0, (install_converters d0). split; [done|]. split.
  - unfold converters_of. rewrite Hf by done.
    change (converters_of s_static = Some (install_converters d0)).
    rewrite (init_static_route_converters _ _ _ _ Hp Hs).
    unfold converters_of. rewrite init_registries_lookup by auto. exact Hc.
  - intros k Hk. unfold converter_names in Hk.
    rewrite !not_elem_of_union, !not_elem_of_singleton in Hk.
    destruct Hk as ((((((?&?)&?)&?)&?)&?)&?).
    unfold install_converters. by rewrite !lookup_insert_ne.
Qed.

Lemma init_static_attrs_lookup (self : obj) (a : init_args) (k : string) :
  k ≠ "static_url_path" → k ≠ "static_folder" →
  init_static_attrs self a !! k = self !! k.
Proof.
  intros ??. unfold init_static_attrs.
  destruct (static_url_path a), (static_folder a);
    by rewrite ?lookup_insert_ne by done.
Qed.

Lemma getattr_name_inv (self : obj) (v : val) :
  getattr E self "name" = ret v → self !! "name" = Some v.
Proof.
  unfold getattr. destruct (self !! "name") as [w|]; [by intros [= ->]|].
  rewrite lookup_insert_ne by done. by vm_compute.
Qed.

Lemma as_str_inv (v : val) (s : string) : as_str v = ret s → v = VStr s.
Proof. destruct v; try done. by intros [= ->]. Qed.

(** When no instance path is given, the one the constructor stores is
    computed from what [find_package] returns for the import name: the
    package path followed by "instance", or, for an installed package,
    the prefix followed by "var" and the name with "-instance" appended.
    The name is the [name] attribute as the base initialiser left it: the
    constructor assigns [name] itself only later (line 233). *)
Theorem init_auto_instance_path (a : init_args) (app : obj) :
  preserves "instance_path" (add_url_rule E) →
  instance_path a = None →
  init E a = ret app →
  ∃ self0 imp pp,
    PackageBoundObject_init E ∅ (import_name a) (template_folder a)
      (root_path a) = ret self0 ∧
    getattr E self0 "import_name" = ret (VStr imp) ∧
    find_package E imp = ret pp ∧
    match pp.1 with
    | None =>
        app !! "instance_path"
        = Some (VStr (abspath E (join E [pp.2; "instance"])))
    | Some prefix =>
        ∃ n, self0 !! "name" = Some (VStr n) ∧
             app !! "instance_path"
             = Some (VStr (abspath E (join E [prefix; "var"; n ++ "-instance"])))
    end.
Proof.
  intros Hp Hnone H.
  apply init_stages in H as (self0 & ip & config & s_map & s_static
                             & H0 & Hip & Hc & Hm & Hs & Ht).
  simpl in *.
  assert (Hpath : app !! "instance_path" = Some (VStr ip)).
  { rewrite (init_early_attr a app self0 ip "instance_path" s_map s_static
               config Hp) by auto.
    by rewrite lookup_insert_eq. }
  unfold init_instance_path in Hip. rewrite Hnone in Hip.
  unfold auto_find_instance_path in Hip.
  apply bind_ret_inv in Hip as (imp & Himp & Hip).
  apply bind_ret_inv in Himp as (iv & Hiv & Himp).
  apply as_str_inv in Himp as ->.
  apply bind_ret_inv in Hip as (pp & Hpp & Hip).
  exists self0, imp, pp. split; [done|]. split.
  { rewrite <- Hiv. symmetry. apply getattr_same.
    by apply init_static_attrs_lookup. }
  split; [done|].
  destruct (pp.1) as [prefix|].
  - apply bind_ret_inv in Hip as (n & Hn & Hip). injection Hip as <-.
    apply bind_ret_inv in Hn as (nv & Hnv & Hn).
    apply as_str_inv in Hn as ->.
    apply getattr_name_inv in Hnv.
    rewrite init_static_attrs_lookup in Hnv by done. eauto.
  - by injection Hip as <-.
Qed.

(** For an installed package and no instance path given, the constructor
    reads [self.name] (line 270, reached from line 184) before it assigns
    it (line 233): unless the base initialiser has already set a [name]
    attribute, the construction raises AttributeError. *)
Theorem init_name_read_before_set (a : init_args) (self0 : obj)
    (imp prefix pkg : string) :
  instance_path a = None →
  PackageBoundObject_init E ∅ (import_name a) (template_folder a)
    (root_path a) = ret self0 →
  self0 !! "import_name" = Some (VStr imp) →
  find_package E imp = ret (Some prefix, pkg) →
  self0 !! "name" = None →
  init E a = raise (AttributeError "name").
Proof.
  intros Hnone H0 Himp Hpp Hname. unfold init. rewrite H0. simpl.
  unfold init_instance_path. rewrite Hnone.
  unfold auto_find_instance_path.
  rewrite (getattr_instance E _ "import_name" (VStr imp))
    by (by rewrite init_static_attrs_lookup).
  simpl. rewrite Hpp. simpl.
  unfold getattr. rewrite init_static_attrs_lookup by done.
  rewrite Hname. rewrite lookup_insert_ne by done. reflexivity.
Qed.

End AppInitFacts.

(** *** The sample applications *)

Section SampleApps.

Import App AppMore.

Lemma static_app_constructed :
  init (sample_env true) (static_args "/assets") = ret (static_app "/assets").
Proof. apply returned_eq. vm_compute. reflexivity. Qed.

Lemma sample_registers_only : registers_only sample_add_url_rule.
Proof. intros k Hk _. by apply sample_add_url_rule_preserves. Qed.

Lemma sample_preserves_url_map_attr (k : string) :
  k ≠ "_rules" → preserves_url_map_attr k sample_add_url_rule.
Proof.
  intros Hk self [[[rule endpoint] host] view] r self' H.
  unfold sample_add_url_rule in H. unfold url_map_attr.
  destruct (self !! "url_map") as [[| | | | | | |cls attrs]|]; try done.
  destruct (attrs !! "_rules") as [[| | |rules| | | |]|]; try done.
  injection H as _ <-. rewrite lookup_insert_eq. by rewrite lookup_insert_ne.
Qed.

Lemma init_config_root_witness :
  ∃ root defaults,
    static_app "/assets" !! "config"
      = Some (Config_new (sample_env true) root defaults) ∧
    getattr (sample_env true) (static_app "/assets") "instance_path" = ret root ∧
    getattr (sample_env true) (static_app "/assets") "default_config"
      = ret defaults.
Proof.
  apply (init_config_root (sample_env true) (static_args "/assets")).
  - apply sample_registers_only.
  - apply static_app_constructed.
Defined.

Lemma init_matching_flags_witness :
  url_map_attr (static_app "/assets") "host_matching" = Some (VBool true) ∧
  url_map_attr (static_app "/assets") "subdomain_matching" = Some (VBool false).
Proof.
  apply (init_matching_flags (sample_env true) (static_args "/assets")).
  - by apply sample_preserves_url_map_attr.
  - by apply sample_preserves_url_map_attr.
  - apply static_app_constructed.
Defined.

Lemma init_nothing_registered_witness :
  static_app "/assets" !! "_before_request_funcs" = Some (VDict ∅) ∧
  static_app "/assets" !! "_teardown_appcontext_funcs" = Some (VList []).
Proof.
  destruct (init_nothing_registered (sample_env true) (static_args "/assets")
              (static_app "/assets"))
    as (_ & _ & Hb & _ & _ & Ht & _).
  - apply sample_registers_only.
  - apply static_app_constructed.
  - by split.
Defined.

Lemma init_name_and_debug_witness :
  ∃ n, static_app "/assets" !! "name" = Some n ∧
       getattr (sample_env true) (static_app "/assets") "import_name" = ret n ∧
       static_app "/assets" !! "debug" = Some (VBool true).
Proof.
  apply (init_name_and_debug (sample_env true) (static_args "/assets")).
  apply static_app_constructed.
Defined.

Lemma init_without_static_folder_witness :
  init (with_add_url_rule sample_env_no_static
          (fun _ _ => raise (Raised "add_url_rule")))
       (default_args "shop")
  = init sample_env_no_static (default_args "shop").
Proof.
  apply init_without_static_folder.
  intros self v [= <-]. reflexivity.
Defined.

Lemma init_static_route_rule_witness :
  ∃ s hsf,
    sample_has_static_folder s = ret hsf ∧
    s !! "_got_first_request" = Some (VBool false) ∧
    if truthy hsf then
      ∃ r s', sample_add_url_rule s
                (VStr "/assets/<path:filename>", VStr "static", VNone,
                 VMethod "send_static_file") = ret (r, s') ∧
              init_tail (sample_env true) s' = ret (static_app "/assets")
    else init_tail (sample_env true) s = ret (static_app "/assets").
Proof.
  exact (init_static_route_rule (sample_env true) (static_args "/assets")
           (static_app "/assets") "/assets" eq_refl static_app_constructed).
Defined.

Lemma init_other_converters_witness :
  ∃ d0 d, map_converters sample_Map = Some d0 ∧
          converters_of (static_app "/assets") = Some d ∧
          ∀ k, k ∉ converter_names → d !! k = d0 !! k.
Proof.
  apply (init_other_converters (sample_env true) (static_args "/assets")).
  - apply sample_add_url_rule_preserves_converters.
  - apply static_app_constructed.
Defined.

Lemma init_auto_instance_path_witness :
  ∃ self0 imp pp,
    sample_pbo_init ∅ "shop" (Some "templates") None = ret self0 ∧
    getattr (sample_env true) self0 "import_name" = ret (VStr imp) ∧
    ret (None, "/srv/app") = ret pp ∧
    match pp.1 with
    | None =>
        static_app "/assets" !! "instance_path"
        = Some (VStr (sample_abspath (posix_join [pp.2; "instance"])))
    | Some prefix =>
        ∃ n, self0 !! "name" = Some (VStr n) ∧
             static_app "/assets" !! "instance_path"
             = Some (VStr (sample_abspath
                             (posix_join [prefix; "var"; n ++ "-instance"])))
    end.
Proof.
  apply (init_auto_instance_path (sample_env true) (static_args "/assets")).
  - by apply sample_add_url_rule_preserves.
  - reflexivity.
  - apply static_app_constructed.
Defined.

Lemma init_name_read_before_set_witness :
  init sample_env_installed (default_args "shop")
  = raise (AttributeError "name").
Proof.
  apply (init_name_read_before_set sample_env_installed (default_args "shop")
           (<["import_name" := VStr "shop"]>
            (<["template_folder" := VStr "templates"]>
            (<["root_path" := VStr "/srv/app"]>
            (<["static_url_path" := VStr "/static"]> ∅))))
           "shop" "/usr" "/usr/lib/python3/site-packages").
  - reflexivity.
  - reflexivity.
  - reflexivity.
  - reflexivity.
  - reflexivity.
Defined.

End SampleApps.
